(** * Focal-length statistics: a model of [analyze_focal_lengths.py]

    The script walks a photo folder, asks [exiftool] for five tags of every
    image, normalises the focal length to its 35 mm equivalent, counts the
    values in two [collections.Counter]s and writes two CSV files and a chart.

    Conventions of the model:
    - a Python [str] is a [string]; its characters are code points below 256,
      and [upper]/[lower] act on the ASCII letters, which is what Python does
      on ASCII text;
    - a Python [float] is a binary64 value ([PrimFloat.float]), so products
      and the parsing of decimal text round exactly as CPython's do;
    - a Python [int] is a [Z], a count is a [nat];
    - an exception is a value of [exn], a computation that may raise returns
      a [result];
    - a [dict] is a [gmap]; a value that may be [None] is an [option];
    - the machine is a [world]: which paths are directories, what [rglob]
      lists and what the tool does on each path; the files the script writes
      are a [gmap] from paths to contents.

    Left out:
    - [expanduser] and the normalisation [pathlib.Path] applies to the folder
      text (a trailing slash, a doubled slash): the folder is taken as the
      text [str(root)] gives, so the message of a missing folder is stated
      for such a text only;
    - case mapping beyond ASCII: [upper] and [lower] leave every character
      but a-z and A-Z alone, so statements about them that are meant for any
      text carry [Str.isascii] as a hypothesis;
    - the ways [subprocess.run] can fail other than a missing tool and a
      non-zero return code (a tool that may not be executed, output that is
      no text): [tool_result] has these two failures only;
    - failures of the three writes (a folder that cannot be written, a full
      disk, a failing [matplotlib]): [write_reports] always writes all three
      files, so nothing is stated here about a run that fails while writing;
    - the text of the CSV files below the level of rows and cells, the
      drawing of the chart, and the check of the command line in the
      [__main__] block.
    The standard output is modelled apart from the results, as the list of
    the texts written, for a terminal of a fixed number of columns. *)

From Stdlib Require Import ZArith Ascii String.
From Stdlib Require Import Floats.PrimFloat Floats.SpecFloat Floats.FloatOps.
From stdpp Require Import gmap strings list fin_maps sorting.

Local Open Scope string_scope.
Local Open Scope Z_scope.

(** ** Python values and exceptions *)

Inductive exn : Type :=
  | CalledProcessError (returncode : Z)
  | FileNotFoundError
  | ValueError
  | AttributeError
  | OverflowError
  | SystemExit (msg : string).

Inductive result (A : Type) : Type :=
  | Ok (a : A)
  | Raise (e : exn).
Arguments Ok {A} a.
Arguments Raise {A} e.

(** Sequencing: the first exception raised ends the computation. *)
#[global] Instance result_ret : MRet result := λ A a, Ok a.
#[global] Instance result_bind : MBind result := λ A B k r,
  match r with
  | Ok a => k a
  | Raise e => Raise e
  end.

(** ** Strings *)

Module Str.

Definition code (c : ascii) : N := Ascii.N_of_ascii c.

Definition between (lo hi : N) (c : ascii) : bool :=
  ((lo <=? code c) && (code c <=? hi))%N.

Definition upper_char (c : ascii) : ascii :=
  if between 97 122 c then Ascii.ascii_of_N (code c - 32) else c.

Definition lower_char (c : ascii) : ascii :=
  if between 65 90 c then Ascii.ascii_of_N (code c + 32) else c.

(** [s.upper()] and [s.lower()] *)
Fixpoint upper (s : string) : string :=
  match s with
  | EmptyString => EmptyString
  | String c s' => String (upper_char c) (upper s')
  end.

Fixpoint lower (s : string) : string :=
  match s with
  | EmptyString => EmptyString
  | String c s' => String (lower_char c) (lower s')
  end.

(** [s.isascii()]: every code point is below 128; on such a text [upper]
    and [lower] are Python's, which change the letters a-z and A-Z only *)
Fixpoint isascii (s : string) : bool :=
  match s with
  | EmptyString => true
  | String c s' => (code c <? 128)%N && isascii s'
  end.

(** [sub in s] *)
Fixpoint contains (sub s : string) : bool :=
  String.prefix sub s ||
  match s with
  | EmptyString => false
  | String _ s' => contains sub s'
  end.

(** [str.isspace] on one character *)
Definition is_space (c : ascii) : bool :=
  between 9 13 c || between 28 32 c || (code c =? 133)%N || (code c =? 160)%N.

(** the line boundaries of [str.splitlines] *)
Definition is_linebreak (c : ascii) : bool :=
  between 10 13 c || between 28 30 c || (code c =? 133)%N.

Fixpoint lstrip (s : string) : string :=
  match s with
  | EmptyString => EmptyString
  | String c s' => if is_space c then lstrip s' else s
  end.

Fixpoint rstrip (s : string) : string :=
  match s with
  | EmptyString => EmptyString
  | String c s' =>
      match rstrip s' with
      | EmptyString => if is_space c then EmptyString else String c EmptyString
      | r => String c r
      end
  end.

(** [s.strip()] *)
Definition strip (s : string) : string := rstrip (lstrip s).

(** [s.splitlines()]: a carriage return followed by a line feed is one
    boundary, and a final boundary opens no further line. *)
Fixpoint splitlines (s : string) : list string :=
  match s with
  | EmptyString => []
  | String c s' =>
      if is_linebreak c then
        EmptyString ::
          match s' with
          | String c' s'' =>
              if (code c =? 13)%N && (code c' =? 10)%N
              then splitlines s'' else splitlines s'
          | EmptyString => []
          end
      else
        match splitlines s' with
        | [] => [String c EmptyString]
        | l :: ls => String c l :: ls
        end
  end.

End Str.

(** ** Floats *)

Module Float.

(** The binary64 value nearest to [m / 10^k] (ties to even), as [float()]
    gives for a decimal literal with digits [m] and [k] digits after the
    point. *)
Definition of_decimal (m : N) (k : nat) : float :=
  match m with
  | N0 => PrimFloat.zero
  | Npos p =>
      SF2Prim (SFdiv prec emax (S754_finite false p 0)
                 (S754_finite false (Z.to_pos (10 ^ Z.of_nat k)) 0))
  end.

(** truth value of a float: [bool(x)] is [x != 0.0] *)
Definition truthy (x : float) : bool := negb (PrimFloat.eqb x PrimFloat.zero).

(** nearest integer to [m * 2^e], ties to the even one *)
Definition nearest_even (m e : Z) : Z :=
  if 0 <=? e then m * 2 ^ e
  else
    let d := 2 ^ (- e) in
    let q := m / d in
    let r := m mod d in
    if 2 * r <? d then q
    else if d <? 2 * r then q + 1
    else if Z.even q then q else q + 1.

(** [round(x)] with one argument: an [int], [OverflowError] on an infinity
    and [ValueError] on a NaN. *)
Definition round (x : float) : result Z :=
  match Prim2SF x with
  | S754_zero _ => Ok 0
  | S754_infinity _ => Raise OverflowError
  | S754_nan => Raise ValueError
  | S754_finite s m e =>
      let n := nearest_even (Z.pos m) e in
      Ok (if s then - n else n)
  end.

End Float.

(** ** The metadata extractor *)

(** What running [exiftool -s3 <tags> <path>] does: the tool is missing, or it
    exits with a return code after writing its standard output. *)
Inductive tool_result : Type :=
  | Exited (returncode : Z) (stdout : string)
  | NotInstalled.

(** The part of the machine the script reads: which paths are directories,
    what [root.rglob("*")] lists, and what the tool does on a path. *)
Record world : Type := World {
  is_dir : string → bool;
  rglob : string → list string;
  exiftool : string → tool_result
}.

Definition IMG_EXTS : list string := [".jpg"; ".jpeg"; ".heic"; ".heif"].
Definition CROP_APSC : float := 1.5%float.

Definition keys : list string := ["Make"; "Model"; "FL"; "FL35"; "FL35Comp"].

(** [dict(pairs)]: later pairs overwrite earlier ones *)
Definition dict {V : Type} (pairs : list (string * V)) : gmap string V :=
  foldl (λ d kv, <[kv.1 := kv.2]> d) ∅ pairs.

(** [subprocess.run(..., check=True)]: a missing tool raises
    [FileNotFoundError], a non-zero return code [CalledProcessError]. *)
Definition run_checked (r : tool_result) : result string :=
  match r with
  | NotInstalled => Raise FileNotFoundError
  | Exited code out => if code =? 0 then Ok out else Raise (CalledProcessError code)
  end.

Definition exif_vals (w : world) (path : string) : result (gmap string (option string)) :=
  out ← run_checked (exiftool w path);
  Ok (dict (zip keys ((Some <$> Str.splitlines (Str.strip out)) ++ replicate 5 None))).

(** [meta.get(k)] and [meta.get(k, "")] *)
Definition get (meta : gmap string (option string)) (k : string) : option string :=
  default None (meta !! k).

Definition get_or_empty (meta : gmap string (option string)) (k : string) : option string :=
  default (Some "") (meta !! k).

(** ** Numeric parsing *)

Definition is_digit (c : ascii) : bool := Str.between 48 57 c.
Definition is_dot (c : ascii) : bool := (Str.code c =? 46)%N.

(** the match of [[\d.]+] at the start of the text, if any *)
Fixpoint num_run (s : string) : string :=
  match s with
  | String c s' => if is_digit c || is_dot c then String c (num_run s') else EmptyString
  | EmptyString => EmptyString
  end.

Definition num_match (s : string) : option string :=
  match num_run s with
  | EmptyString => None
  | g => Some g
  end.

(** [float(g)] for a text [g] of digits and dots, the only texts the pattern
    lets through: digits with at most one dot and at least one digit are a
    number, anything else is a [ValueError].  [m] is the number read so far,
    [k] counts the digits after the dot. *)
Fixpoint float_digits (seen_dot : bool) (any : bool) (m : N) (k : nat) (g : string)
  : result float :=
  match g with
  | EmptyString => if any then Ok (Float.of_decimal m k) else Raise ValueError
  | String c g' =>
      if is_digit c then
        float_digits seen_dot true (10 * m + (Str.code c - 48))%N
          (if seen_dot then S k else k) g'
      else if is_dot c && negb seen_dot then float_digits true any m k g'
      else Raise ValueError
  end.

Definition float_of_text (g : string) : result float := float_digits false false 0%N 0%nat g.

Definition to_float (s : option string) : result (option float) :=
  match num_match (default "" s) with
  | Some g => x ← float_of_text g; Ok (Some x)
  | None => Ok None
  end.

(** the truth value of [None] or a float *)
Definition usable (v : option float) : bool :=
  match v with
  | Some x => Float.truthy x
  | None => false
  end.

(** ** The camera identifier *)

Definition nonempty (s : string) : bool := negb (String.eqb s "").

Definition camera (meta : gmap string (option string)) : string :=
  let make := Str.upper (default "" (get meta "Make")) in
  let model := default "" (get meta "Model") in
  if Str.contains "APPLE" make then "iPhone"
  else if Str.contains "FUJIFILM" make then
    if Str.contains "X-T5" (Str.upper model) then "XT5" else model
  else if nonempty model then model
  else if nonempty make then make
  else "Unknown".

(** ** The focal-length normalizer *)

(** the loop over the tags: the first usable value is returned *)
Fixpoint first_usable (meta : gmap string (option string)) (tags : list string)
  : result (option float) :=
  match tags with
  | [] => Ok None
  | tag :: tags' =>
      mm ← to_float (get meta tag);
      if usable mm then Ok mm else first_usable meta tags'
  end.

(** the last two lines of [ff_equiv]: the crop factor applied to the native
    focal length; [.upper()] on [None] is an [AttributeError] *)
Definition crop_rule (meta : gmap string (option string)) (native : option float)
  : result (option float) :=
  match native with
  | None => Ok None
  | Some x =>
      match get_or_empty meta "Make" with
      | None => Raise AttributeError
      | Some make =>
          if Str.contains "FUJIFILM" (Str.upper make)
          then Ok (Some (PrimFloat.mul x CROP_APSC))
          else Ok (Some x)
      end
  end.

Definition ff_equiv (meta : gmap string (option string)) (native : option float)
  : result (option float) :=
  found ← first_usable meta ["FL35Comp"; "FL35"];
  match found with
  | Some mm => Ok (Some mm)
  | None => crop_rule meta native
  end.

(** ** The aggregator *)

(** [pathlib]: the final component of a path and its suffix, the part from
    the last dot when that dot is neither first nor last in the name. *)
Fixpoint name (p : string) : string :=
  match p with
  | EmptyString => EmptyString
  | String c p' =>
      if Str.contains "/" p' then name p'
      else if (Str.code c =? 47)%N then p' else p
  end.

Fixpoint from_last_dot (n : string) : option string :=
  match n with
  | EmptyString => None
  | String c n' =>
      match from_last_dot n' with
      | Some t => Some t
      | None => if is_dot c then Some n else None
      end
  end.

Definition suffix (p : string) : string :=
  match name p with
  | EmptyString => EmptyString
  | String _ n' =>
      match from_last_dot n' with
      | Some (String d (String c t)) => String d (String c t)
      | _ => EmptyString
      end
  end.

Definition supported (f : string) : bool :=
  bool_decide (Str.lower (suffix f) ∈ IMG_EXTS).

(** a [collections.Counter]: [c[k] += 1] reads a missing key as 0 *)
Definition count {K : Type} `{Countable K} (c : gmap K nat) (k : K) : nat :=
  default 0%nat (c !! k).

Definition incr {K : Type} `{Countable K} (k : K) (c : gmap K nat) : gmap K nat :=
  <[k := S (count c k)]> c.

Definition total {K : Type} `{Countable K} (c : gmap K nat) : nat :=
  map_fold (λ _ n acc, (n + acc)%nat) 0%nat c.

Record counters : Type := Counters {
  hist : gmap Z nat;
  camfx : gmap (string * Z * Z) nat
}.

Definition empty_counters : counters := Counters ∅ ∅.

(** the body of the loop over the files, for one file *)
Definition scan_file (w : world) (st : counters) (f : string) : result counters :=
  meta ← exif_vals w f;
  native ← to_float (get meta "FL");
  ff_mm ← ff_equiv meta native;
  let cam := camera meta in
  hist' ←
    match ff_mm with
    | Some ff =>
        if Float.truthy ff then k ← Float.round ff; Ok (incr k (hist st))
        else Ok (hist st)
    | None => Ok (hist st)
    end;
  camfx' ←
    match native, ff_mm with
    | Some nat_mm, Some ff =>
        if Float.truthy nat_mm && Float.truthy ff then
          n ← Float.round nat_mm;
          k ← Float.round ff;
          Ok (incr (cam, n, k) (camfx st))
        else Ok (camfx st)
    | _, _ => Ok (camfx st)
    end;
  Ok (Counters hist' camfx').

(** the loop: the first exception ends it *)
Fixpoint scan (w : world) (st : counters) (files : list string) : result counters :=
  match files with
  | [] => Ok st
  | f :: files' => st' ← scan_file w st f; scan w st' files'
  end.

(** ** The reporter *)

Inductive cell : Type :=
  | Text (s : string)
  | Int (n : Z).

(** A written file: a CSV file is the list of its rows (quoting and line
    ends are the csv module's), the chart is the bars it draws. *)
Inductive file : Type :=
  | Csv (rows : list (list cell))
  | Chart (bars : list (Z * nat)).

(** the order of Python tuples: the first components that differ decide *)
Definition hist_le (x y : Z * nat) : Prop :=
  x.1 < y.1 ∨ x.1 = y.1 ∧ (x.2 ≤ y.2)%nat.

Definition key_le (x y : string * Z * Z) : Prop :=
  (x.1.1 ≠ y.1.1 ∧ String.le x.1.1 y.1.1) ∨
  x.1.1 = y.1.1 ∧ (x.1.2 < y.1.2 ∨ x.1.2 = y.1.2 ∧ x.2 ≤ y.2).

Definition camfx_le (x y : string * Z * Z * nat) : Prop :=
  (x.1 ≠ y.1 ∧ key_le x.1 y.1) ∨ x.1 = y.1 ∧ (x.2 ≤ y.2)%nat.

#[global] Instance hist_le_dec : RelDecision hist_le.
Proof. intros x y. unfold hist_le. apply _. Defined.
#[global] Instance key_le_dec : RelDecision key_le.
Proof. intros x y. unfold key_le. apply _. Defined.
#[global] Instance camfx_le_dec : RelDecision camfx_le.
Proof. intros x y. unfold camfx_le. apply _. Defined.

(** [sorted(c.items())] *)
Definition sorted_hist (c : gmap Z nat) : list (Z * nat) :=
  merge_sort hist_le (map_to_list c).

Definition sorted_camfx (c : gmap (string * Z * Z) nat) : list (string * Z * Z * nat) :=
  merge_sort camfx_le (map_to_list c).

Definition hist_header : list cell := [Text "focal_mm_35eq"; Text "count"].
Definition camfx_header : list cell :=
  [Text "camera"; Text "native_mm"; Text "focal_mm_35eq"; Text "count"].

Definition hist_row (r : Z * nat) : list cell := [Int r.1; Int (Z.of_nat r.2)].
Definition camfx_row (r : string * Z * Z * nat) : list cell :=
  [Text r.1.1.1; Int r.1.1.2; Int r.1.2; Int (Z.of_nat r.2)].

(** [root / name] *)
Definition join (root name : string) : string := root +:+ "/" +:+ name.

Definition write_reports (root : string) (st : counters) (fs : gmap string file)
  : gmap string file :=
  let fs1 :=
    <[join root "focal_length_histogram.csv" :=
        Csv (hist_header :: (hist_row <$> sorted_hist (hist st)))]> fs in
  let fs2 :=
    <[join root "camera_focal_usage.csv" :=
        Csv (camfx_header :: (camfx_row <$> sorted_camfx (camfx st)))]> fs1 in
  <[join root "focal_length_histogram.png" := Chart (sorted_hist (hist st))]> fs2.

(** ** The script *)

(** the images of a folder: [files] in [main] *)
Definition images (w : world) (folder : string) : list string :=
  filter (λ f, supported f = true) (rglob w folder).


(** [main(folder)] from a file system [fs]: the files after the run, and how
    the run ended. [sys.exit(msg)] raises [SystemExit msg]. *)
Definition main (w : world) (folder : string) (fs : gmap string file)
  : gmap string file * result unit :=
  let root := folder in
  if negb (is_dir w root) then
    (fs, Raise (SystemExit ("Folder not found: " +:+ root)))
  else
    let files := images w root in
    match files with
    | [] => (fs, Raise (SystemExit "No supported images found."))
    | _ =>
        match scan w empty_counters files with
        | Raise e => (fs, Raise e)
        | Ok st =>
            if bool_decide (hist st = ∅) then
              (fs, Raise (SystemExit "No focal-length data found (tags missing)."))
            else (write_reports root st fs, Ok ())
        end
    end.

(** the exit status of the process: 0 on a normal end; an exception that
    reaches the top level, [SystemExit] with a message included, gives 1
    after the message or the traceback went to the standard error *)
Definition exit_status (r : result unit) : Z :=
  match r with
  | Ok _ => 0
  | Raise _ => 1
  end.

(** ** What the loop body sees of a file *)

(** The 35 mm equivalent the loop body computes for a file. *)
Definition focal_35 (w : world) (f : string) : result (option float) :=
  meta ← exif_vals w f;
  native ← to_float (get meta "FL");
  ff_equiv meta native.

(** The native focal length the loop body computes for a file. *)
Definition focal_native (w : world) (f : string) : result (option float) :=
  meta ← exif_vals w f;
  to_float (get meta "FL").

(** A file yields a usable 35 mm equivalent: [if ff_mm:] is taken. *)
Definition yields_value (w : world) (f : string) : bool :=
  match focal_35 w f with
  | Ok v => usable v
  | Raise _ => false
  end.

(** A file is counted per camera: [if native and ff_mm:] is taken. *)
Definition yields_both (w : world) (f : string) : bool :=
  yields_value w f &&
  match focal_native w f with
  | Ok v => usable v
  | Raise _ => false
  end.

(** every key of a counter has a positive count *)
Definition positive {K : Type} `{Countable K} (c : gmap K nat) : Prop :=
  map_Forall (λ _ n, (1 ≤ n)%nat) c.

(** how many characters of a text satisfy a test *)
Fixpoint count_chars (p : ascii → bool) (g : string) : nat :=
  match g with
  | EmptyString => 0
  | String c g' => ((if p c then 1 else 0) + count_chars p g')%nat
  end.

(** The histogram key of a file: its usable 35 mm equivalent, rounded. *)
Definition histogram_key (w : world) (f : string) : option Z :=
  match focal_35 w f with
  | Ok (Some ff) =>
      if Float.truthy ff then
        match Float.round ff with
        | Ok k => Some k
        | Raise _ => None
        end
      else None
  | _ => None
  end.

(** strictly ascending triples: ascending and different *)
Definition key_lt (x y : string * Z * Z) : Prop := key_le x y ∧ x ≠ y.

(** ** Sample inputs *)

(** the tool's output: one line per value *)
Definition nl : string := String "010" EmptyString.
Definition output (lines : list string) : string :=
  foldr (λ l rest, l +:+ nl +:+ rest) EmptyString lines.

(** A folder [photos] with three images, a text file and a hidden file:
    a Fuji compact that reports no 35 mm tags, a phone that reports both,
    and a Fuji body that reports the separate tag only. *)
Definition demo_world : world :=
  World (λ p, String.eqb p "photos")
    (λ _, ["photos/a.jpg"; "photos/b.JPG"; "photos/trip/c.jpeg";
           "photos/notes.txt"; "photos/.jpg"])
    (λ p,
       if String.eqb p "photos/a.jpg" then
         Exited 0 (output ["Fujifilm"; "X100V"; "23.0 mm"])
       else if String.eqb p "photos/b.JPG" then
         Exited 0 (output ["Apple"; "iPhone 12"; "4.2 mm"; "26 mm"; "26.0 mm"])
       else
         Exited 0 (output ["FUJIFILM"; "X-T5"; "23.0 mm"; "34 mm"])).

Definition demo_files : list string :=
  ["photos/a.jpg"; "photos/b.JPG"; "photos/trip/c.jpeg"].

(** A folder with one image whose native focal length reads as zero while
    the 35 mm tag is present, and one image with both. *)
Definition zero_native_world : world :=
  World (λ _, true) (λ _, ["in/scan.jpg"; "in/shot.jpg"])
    (λ p,
       if String.eqb p "in/scan.jpg" then
         Exited 0 (output ["Canon"; "EOS 5D"; "0.0 mm"; "50 mm"])
       else Exited 0 (output ["Canon"; "EOS 5D"; "85.0 mm"; "85 mm"])).

(** the same machine with one path left out of the listing *)
Definition without (w : world) (f : string) : world :=
  World (is_dir w) (λ root, filter (λ g, g ≠ f) (rglob w root)) (exiftool w).

(** A folder in which the tool fails on the first image (return code 1)
    and reads the second. *)
Definition failing_tool_world : world :=
  World (λ _, true) (λ _, ["pics/bad.jpg"; "pics/good.jpg"])
    (λ p,
       if String.eqb p "pics/bad.jpg" then Exited 1 EmptyString
       else Exited 0 (output ["FUJIFILM"; "X100V"; "23.0 mm"; "35 mm"; "35.0 mm"])).

(** A folder whose second image carries a focal length text with two dots. *)
Definition dotted_world : world :=
  World (λ _, true) (λ _, ["in/one.jpg"; "in/two.jpg"; "in/three.jpg"])
    (λ p,
       if String.eqb p "in/two.jpg" then
         Exited 0 (output ["Canon"; "EOS 5D"; "1.2.3 mm"])
       else Exited 0 (output ["Canon"; "EOS 5D"; "50.0 mm"; "50 mm"])).

(** a machine without the tool *)
Definition no_tool_world : world :=
  World (λ _, true) (λ _, ["pics/one.heic"]) (λ _, NotInstalled).

(** a folder without images, and a folder whose only image carries no tags *)
Definition text_only_world : world :=
  World (λ _, true) (λ _, ["docs/notes.txt"; "docs/.jpg"; "docs/jpg"])
    (λ _, Exited 0 EmptyString).

Definition untagged_world : world :=
  World (λ _, true) (λ _, ["raw/x.HEIF"]) (λ _, Exited 0 nl).

(** Metadata records as [exif_vals] builds them. *)
Definition record (values : list (option string)) : gmap string (option string) :=
  dict (zip keys values).

(** a Fuji compact with neither 35 mm tag, its maker in mixed case *)
Definition fuji_meta : gmap string (option string) :=
  record [Some "Fujifilm"; Some "X100V"; Some "23.0 mm"; None; None].

(** the same lens on a body of another maker *)
Definition other_meta : gmap string (option string) :=
  record [Some "Canon"; Some "EOS 5D"; Some "23.0 mm"; None; None].

(** a composite value of zero next to a separate tag of 80 mm *)
Definition zero_composite_meta : gmap string (option string) :=
  record [Some "Canon"; Some "EOS 5D"; Some "50.0 mm"; Some "80 mm"; Some "0.0 mm"].

(** both 35 mm tags present and different *)
Definition both_tags_meta : gmap string (option string) :=
  record [Some "Canon"; Some "EOS 5D"; Some "50.0 mm"; Some "80 mm"; Some "75.0 mm"].

(** ** What a file adds to the counters *)

(** The per-camera key of a file: camera label, rounded native focal
    length and rounded 35 mm equivalent, when both lengths are usable. *)
Definition camera_key (w : world) (f : string) : option (string * Z * Z) :=
  match exif_vals w f with
  | Ok meta =>
      match to_float (get meta "FL") with
      | Ok (Some x) =>
          match ff_equiv meta (Some x) with
          | Ok (Some ff) =>
              if Float.truthy x && Float.truthy ff then
                match Float.round x, Float.round ff with
                | Ok n, Ok k => Some (camera meta, n, k)
                | _, _ => None
                end
              else None
          | _ => None
          end
      | _ => None
      end
  | Raise _ => None
  end.

(** [c[k] += 1] when there is a key, nothing otherwise *)
Definition bump {K : Type} `{Countable K} (key : option K) (c : gmap K nat)
  : gmap K nat :=
  match key with
  | Some k => incr k c
  | None => c
  end.

(** the loop body goes through on a file (it raises nothing) *)
Definition readable (w : world) (f : string) : bool :=
  match scan_file w empty_counters f with
  | Ok _ => true
  | Raise _ => false
  end.

(** a text of whitespace only: stripping leaves nothing *)
Definition blank (s : string) : Prop := Str.lstrip s = EmptyString.

(** ** The progress line *)

(** Text written to the standard output, as its code points: the progress
    line ends with an ellipsis (U+2026), which is one character to [ljust]. *)
Module Out.

Definition codes (s : string) : list N := Str.code <$> list_ascii_of_string s.

(** the decimal digits of a natural number, most significant first *)
Fixpoint digits (fuel n : nat) : list N :=
  match fuel with
  | O => []
  | S fuel' =>
      if (n <? 10)%nat then [(48 + N.of_nat n)%N]
      else digits fuel' (n / 10) ++ [(48 + N.of_nat (n mod 10))%N]
  end.

(** [str(n)] for an [int] *)
Definition str (n : Z) : list N :=
  if n <? 0 then 45%N :: digits (S (Z.to_nat (- n))) (Z.to_nat (- n))
  else digits (S (Z.to_nat n)) (Z.to_nat n).

(** [s.rjust(width)] and [s.ljust(width)], padding with spaces *)
Definition rjust (width : nat) (s : list N) : list N :=
  replicate (width - length s) 32%N ++ s.

Definition ljust (width : nat) (s : list N) : list N :=
  s ++ replicate (width - length s) 32%N.

End Out.

(** the text [show_progress(i, total)] writes on a terminal of the given
    number of columns *)
Definition show_progress (columns : nat) (i total : Z) : list N :=
  Out.ljust columns
    ([13%N] ++ Out.codes "[ " ++ Out.rjust (length (Out.str total)) (Out.str i)
     ++ Out.codes " / " ++ Out.str total ++ Out.codes " ] scanning" ++ [8230%N]).

(** the loop of [main] with what it writes: one progress line before each
    file is read, numbered from [i] *)
Fixpoint scan_shown (w : world) (columns : nat) (total : Z) (i : Z)
    (st : counters) (files : list string) : list (list N) * result counters :=
  match files with
  | [] => ([], Ok st)
  | f :: files' =>
      let line := show_progress columns i total in
      match scan_file w st f with
      | Ok st' =>
          let '(lines, r) := scan_shown w columns total (i + 1) st' files' in
          (line :: lines, r)
      | Raise e => ([line], Raise e)
      end
  end.

(** the line that wipes the progress line, and the closing message of
    [print], with its line feed *)
Definition clear_line (columns : nat) : list N :=
  [13%N] ++ replicate columns 32%N ++ [13%N].

Definition done_message : list N :=
  Out.codes "Done!  " ++ [8226%N] ++ Out.codes " focal_length_histogram.csv"
  ++ Out.codes "  " ++ [8226%N] ++ Out.codes " camera_focal_usage.csv  "
  ++ [8226%N] ++ Out.codes " focal_length_histogram.png" ++ [10%N].

(** what [main] writes on the standard output, write by write (the messages
    of [sys.exit] and the tracebacks go to the standard error) *)
Definition main_shown (w : world) (columns : nat) (folder : string)
  : list (list N) :=
  if negb (is_dir w folder) then []
  else
    match images w folder with
    | [] => []
    | files =>
        let '(lines, r) :=
          scan_shown w columns (Z.of_nat (length files)) 1 empty_counters files in
        match r with
        | Raise _ => lines
        | Ok st =>
            lines ++ [clear_line columns] ++
            (if bool_decide (hist st = ∅) then [] else [done_message])
        end
    end.

(** * Properties *)

(** ** Counters *)

Section counter.
Context {K : Type} `{Countable K}.
Implicit Types (c : gmap K nat) (k : K).

Lemma count_incr_eq c k : count (incr k c) k = S (count c k).
Proof. unfold count at 1, incr. by rewrite lookup_insert_eq. Qed.

Lemma count_incr_ne c k k' : k ≠ k' → count (incr k c) k' = count c k'.
Proof. intros Hne. unfold count, incr. by rewrite lookup_insert_ne. Qed.

Lemma count_incr_le c k k' : (count c k' ≤ count (incr k c) k')%nat.
Proof.
  destruct (decide (k = k')) as [->|Hne].
  - rewrite count_incr_eq. lia.
  - by rewrite count_incr_ne.
Qed.

Lemma total_empty : total (∅ : gmap K nat) = 0%nat.
Proof. unfold total. by rewrite map_fold_empty. Qed.

Lemma total_insert_fresh c k n : c !! k = None → total (<[k:=n]> c) = (n + total c)%nat.
Proof.
  intros Hk. unfold total. rewrite map_fold_insert_L; [done| |done].
  intros. lia.
Qed.

Lemma total_incr c k : total (incr k c) = S (total c).
Proof.
  unfold incr, count. destruct (c !! k) as [n|] eqn:Hk; simpl.
  - rewrite <-(insert_delete_eq c), total_insert_fresh by apply lookup_delete_eq.
    rewrite <-(insert_delete_id c k n) at 2 by done.
    rewrite total_insert_fresh by apply lookup_delete_eq. lia.
  - by rewrite total_insert_fresh.
Qed.

Lemma positive_empty : positive (∅ : gmap K nat).
Proof. apply map_Forall_empty. Qed.

Lemma positive_incr c k : positive c → positive (incr k c).
Proof. intros Hc. apply map_Forall_insert_2; [lia|done]. Qed.

Lemma positive_total_0 c : positive c → total c = 0%nat → c = ∅.
Proof.
  induction c as [|k n c Hk IH] using map_ind; [done|].
  intros Hpos. rewrite total_insert_fresh by done.
  apply map_Forall_insert in Hpos as [Hn _]; [lia|done].
Qed.

Lemma incr_nonempty c k : incr k c ≠ ∅.
Proof. apply insert_non_empty. Qed.
End counter.

(** ** One file of the scan *)

Lemma bind_Ok {A B} (r : result A) (k : A → result B) b :
  r ≫= k = Ok b → ∃ a, r = Ok a ∧ k a = Ok b.
Proof. destruct r as [a|e]; [eauto|done]. Qed.

Ltac inv_bind H :=
  repeat match type of H with
  | _ ≫= _ = Ok _ =>
      let a := fresh "a" in let Ha := fresh "Ha" in
      apply bind_Ok in H as (a & Ha & H)
  end.

(** What a completed loop body did to the overall histogram. *)
Lemma scan_file_hist w st f st' :
  scan_file w st f = Ok st' →
  if yields_value w f
  then ∃ ff k, focal_35 w f = Ok (Some ff) ∧ Float.round ff = Ok k ∧
               hist st' = incr k (hist st)
  else hist st' = hist st.
Proof.
  unfold scan_file, yields_value, focal_35. intros Hs.
  destruct (exif_vals w f) as [meta|]; [simpl in *|done].
  destruct (to_float (get meta "FL")) as [native|]; [simpl in *|done].
  destruct (ff_equiv meta native) as [[ff|]|]; simpl in *; [| |done].
  - destruct (Float.truthy ff) eqn:Ht.
    + destruct (Float.round ff) as [k|] eqn:Hr; [simpl in *|done].
      inv_bind Hs. injection Hs as <-. simpl. eauto.
    + simpl in Hs. inv_bind Hs. by injection Hs as <-.
  - simpl in Hs. inv_bind Hs. by injection Hs as <-.
Qed.

(** What a completed loop body did to the per-camera histogram. *)
Lemma scan_file_camfx w st f st' :
  scan_file w st f = Ok st' →
  if yields_both w f
  then ∃ key, camfx st' = incr key (camfx st)
  else camfx st' = camfx st.
Proof.
  unfold scan_file, yields_both, yields_value, focal_35, focal_native. intros Hs.
  destruct (exif_vals w f) as [meta|]; [simpl in *|done].
  destruct (to_float (get meta "FL")) as [native|]; [simpl in *|done].
  destruct (ff_equiv meta native) as [[ff|]|]; simpl in *; [| |done].
  - destruct (Float.truthy ff) eqn:Ht; simpl.
    + destruct (Float.round ff) as [k|] eqn:Hr; [simpl in *|done].
      destruct native as [x|]; simpl in *.
      * destruct (Float.truthy x); simpl in *.
        -- destruct (Float.round x) as [n|]; [simpl in *|done].
           injection Hs as <-. simpl. eauto.
        -- by injection Hs as <-.
      * by injection Hs as <-.
    + destruct native as [x|]; simpl in *.
      * rewrite andb_false_r in Hs. by injection Hs as <-.
      * by injection Hs as <-.
  - destruct native; by injection Hs as <-.
Qed.

Lemma scan_app w st (pre post : list string) :
  scan w st (pre ++ post)%list = (scan w st pre ≫= λ st1, scan w st1 post).
Proof.
  revert st. induction pre as [|f pre IH]; intros st; simpl; [done|].
  destruct (scan_file w st f) as [st'|]; simpl; [apply IH|done].
Qed.

(** ** The whole scan *)

Lemma scan_hist_total w st0 files st :
  scan w st0 files = Ok st →
  total (hist st) =
    (total (hist st0) + length (filter (λ f, yields_value w f = true) files))%nat.
Proof.
  revert st0. induction files as [|f files IH]; intros st0 Hs; simpl in Hs.
  - injection Hs as <-. simpl. lia.
  - apply bind_Ok in Hs as (st1 & Hf & Hs). apply IH in Hs as ->.
    apply scan_file_hist in Hf. destruct (yields_value w f) eqn:Hy.
    + destruct Hf as (ff & k & _ & _ & ->). rewrite total_incr.
      rewrite filter_cons_True by done. simpl. lia.
    + rewrite Hf. by rewrite filter_cons_False by congruence.
Qed.

Lemma scan_hist_positive w st0 files st :
  scan w st0 files = Ok st → positive (hist st0) → positive (hist st).
Proof.
  revert st0. induction files as [|f files IH]; intros st0 Hs Hpos; simpl in Hs.
  - by injection Hs as <-.
  - apply bind_Ok in Hs as (st1 & Hf & Hs). apply (IH _ Hs).
    apply scan_file_hist in Hf. destruct (yields_value w f).
    + destruct Hf as (ff & k & _ & _ & ->). by apply positive_incr.
    + by rewrite Hf.
Qed.

Lemma scan_hist_mono w st0 files st k :
  scan w st0 files = Ok st → (count (hist st0) k ≤ count (hist st) k)%nat.
Proof.
  revert st0. induction files as [|f files IH]; intros st0 Hs; simpl in Hs.
  - by injection Hs as <-.
  - apply bind_Ok in Hs as (st1 & Hf & Hs). apply IH in Hs.
    apply scan_file_hist in Hf. destruct (yields_value w f).
    + destruct Hf as (ff & k' & _ & _ & Hh). rewrite Hh in Hs.
      pose proof (count_incr_le (hist st0) k' k). lia.
    + by rewrite <-Hf.
Qed.

(** C3: after a completed scan the counts of the overall histogram add up
    to the number of scanned files that yielded a usable 35 mm equivalent;
    every key that is present has a count of at least 1, so no value is
    recorded with count zero; and the count of every key after any prefix of
    the scan is at most its count at the end. *)
Theorem histogram_counts_usable_files w files st :
  scan w empty_counters files = Ok st →
  total (hist st) = length (filter (λ f, yields_value w f = true) files) ∧
  (∀ k n, hist st !! k = Some n → (1 ≤ n)%nat) ∧
  (∀ pre post st1,
     files = (pre ++ post)%list →
     scan w empty_counters pre = Ok st1 →
     ∀ k, (count (hist st1) k ≤ count (hist st) k)%nat).
Proof.
  intros Hs. split_and!.
  - rewrite (scan_hist_total _ _ _ _ Hs). simpl. by rewrite total_empty.
  - intros k n Hk.
    by apply (scan_hist_positive _ _ _ _ Hs positive_empty k n).
  - intros pre post st1 -> Hpre k. rewrite scan_app, Hpre in Hs. simpl in Hs.
    by apply (scan_hist_mono _ _ _ _ _ Hs).
Qed.

Lemma histogram_counts_usable_files_witness :
  ∃ st, scan demo_world empty_counters demo_files = Ok st ∧
        total (hist st) = 3%nat ∧ count (hist st) 34 = 2%nat.
Proof.
  eexists. split; [vm_compute; reflexivity|].
  split; [|vm_compute; reflexivity].
  apply (histogram_counts_usable_files demo_world demo_files).
  vm_compute. reflexivity.
Defined.

Lemma scan_camfx_total w st0 files st :
  scan w st0 files = Ok st →
  total (camfx st) =
    (total (camfx st0) + length (filter (λ f, yields_both w f = true) files))%nat.
Proof.
  revert st0. induction files as [|f files IH]; intros st0 Hs; simpl in Hs.
  - injection Hs as <-. simpl. lia.
  - apply bind_Ok in Hs as (st1 & Hf & Hs). apply IH in Hs as ->.
    apply scan_file_camfx in Hf. destruct (yields_both w f) eqn:Hy.
    + destruct Hf as (key & ->). rewrite total_incr.
      rewrite filter_cons_True by done. simpl. lia.
    + rewrite Hf. by rewrite filter_cons_False by congruence.
Qed.

Lemma yields_both_value w f : yields_both w f = true → yields_value w f = true.
Proof. unfold yields_both. by intros [? _]%andb_prop. Qed.

Lemma filter_both_le w (files : list string) :
  (length (filter (λ f, yields_both w f = true) files)
   ≤ length (filter (λ f, yields_value w f = true) files))%nat.
Proof.
  induction files as [|f files IH]; [done|].
  destruct (yields_both w f) eqn:Hb.
  - rewrite !filter_cons_True by auto using yields_both_value. simpl. lia.
  - rewrite (filter_cons_False (λ f, yields_both w f = true)) by congruence.
    rewrite filter_cons. case_decide; simpl; lia.
Qed.

Lemma filter_both_lt w (files : list string) f :
  f ∈ files → yields_value w f = true → yields_both w f = false →
  (length (filter (λ f, yields_both w f = true) files)
   < length (filter (λ f, yields_value w f = true) files))%nat.
Proof.
  intros Hin Hv Hb. induction Hin as [f files|f g files Hin IH].
  - rewrite (filter_cons_False (λ f, yields_both w f = true)) by congruence.
    rewrite filter_cons_True by done.
    pose proof (filter_both_le w files). simpl. lia.
  - specialize (IH Hv Hb). destruct (yields_both w g) eqn:Hg.
    + rewrite !filter_cons_True by auto using yields_both_value. simpl. lia.
    + rewrite (filter_cons_False (λ f, yields_both w f = true)) by congruence.
      rewrite (filter_cons (λ f, yields_value w f = true)).
      case_decide; simpl; lia.
Qed.

Lemma scan_member_completes w st0 files st f :
  scan w st0 files = Ok st → f ∈ files →
  ∃ st1 st2, scan_file w st1 f = Ok st2.
Proof.
  revert st0. induction files as [|g files IH]; intros st0 Hs Hin.
  - by apply elem_of_nil in Hin.
  - simpl in Hs. apply bind_Ok in Hs as (st1 & Hg & Hs).
    apply elem_of_cons in Hin as [->|Hin]; [eauto|by eapply IH].
Qed.

Lemma scan_file_no_native w st f ff k native :
  focal_35 w f = Ok (Some ff) → Float.truthy ff = true →
  Float.round ff = Ok k →
  focal_native w f = Ok native → usable native = false →
  scan_file w st f = Ok (Counters (incr k (hist st)) (camfx st)).
Proof.
  unfold focal_35, focal_native, scan_file. intros Hff Ht Hk Hn Hu.
  destruct (exif_vals w f) as [meta|]; [simpl in *|done].
  rewrite Hn in *. simpl in *. rewrite Hff. simpl. rewrite Ht, Hk. simpl.
  destruct native as [x|]; [|done]. simpl in Hu. by rewrite Hu.
Qed.

(** C10: a scanned file whose 35 mm equivalent is usable while its native
    focal length is absent or zero is counted in the overall histogram,
    under its rounded 35 mm equivalent, and leaves the per-camera histogram
    as it was; after a completed scan that met such a file the counts of the
    per-camera histogram add up to strictly less than those of the overall
    histogram. *)
Theorem no_native_counts_overall_only w files st f :
  scan w empty_counters files = Ok st →
  f ∈ files →
  yields_value w f = true →
  (focal_native w f = Ok None ∨
   ∃ x, focal_native w f = Ok (Some x) ∧ Float.truthy x = false) →
  (∃ k, histogram_key w f = Some k ∧
        ∀ st0, scan_file w st0 f =
                 Ok (Counters (incr k (hist st0)) (camfx st0))) ∧
  (total (camfx st) < total (hist st))%nat.
Proof.
  intros Hs Hin Hv Hn.
  assert (∃ native, focal_native w f = Ok native ∧ usable native = false)
    as (native & Hnat & Hu).
  { destruct Hn as [?|(x & ? & ?)]; eauto. }
  assert (yields_both w f = false) as Hb.
  { unfold yields_both. by rewrite Hv, Hnat, Hu. }
  split.
  - destruct (scan_member_completes _ _ _ _ _ Hs Hin) as (st1 & st2 & Hf).
    apply scan_file_hist in Hf. rewrite Hv in Hf.
    destruct Hf as (ff & k & Hff & Hk & _).
    assert (Float.truthy ff = true) as Ht.
    { unfold yields_value in Hv. by rewrite Hff in Hv. }
    exists k. split.
    + unfold histogram_key. by rewrite Hff, Ht, Hk.
    + intros st0. by apply (scan_file_no_native w st0 f ff k native).
  - rewrite (scan_hist_total _ _ _ _ Hs), (scan_camfx_total _ _ _ _ Hs).
    simpl. rewrite !total_empty. simpl. by apply (filter_both_lt w files f).
Qed.

Lemma no_native_counts_overall_only_witness :
  ∃ st, scan zero_native_world empty_counters ["in/scan.jpg"; "in/shot.jpg"] = Ok st ∧
        (total (camfx st) < total (hist st))%nat ∧
        total (camfx st) = 1%nat ∧ total (hist st) = 2%nat.
Proof.
  eexists. split; [vm_compute; reflexivity|].
  split; [|split; vm_compute; reflexivity].
  apply (no_native_counts_overall_only zero_native_world
           ["in/scan.jpg"; "in/shot.jpg"] _ "in/scan.jpg").
  - vm_compute. reflexivity.
  - apply list_elem_of_here.
  - vm_compute. reflexivity.
  - right. exists 0%float. split; vm_compute; reflexivity.
Defined.

(** ** The script as a whole *)

Lemma scan_file_tool_failure w st f e :
  run_checked (exiftool w f) = Raise e → scan_file w st f = Raise e.
Proof. intros He. unfold scan_file, exif_vals. by rewrite He. Qed.

Lemma scan_stops_at_failure w st0 (pre post : list string) st1 f e :
  scan w st0 pre = Ok st1 →
  scan_file w st1 f = Raise e →
  scan w st0 (pre ++ f :: post)%list = Raise e.
Proof. intros Hpre Hf. rewrite scan_app, Hpre. simpl. by rewrite Hf. Qed.

Lemma scan_hist_unchanged w st0 files st :
  scan w st0 files = Ok st →
  (∀ f, f ∈ files → yields_value w f = false) →
  hist st = hist st0.
Proof.
  revert st0. induction files as [|f files IH]; intros st0 Hs Hno; simpl in Hs.
  - by injection Hs as <-.
  - apply bind_Ok in Hs as (st1 & Hf & Hs).
    apply scan_file_hist in Hf. rewrite (Hno f) in Hf by apply list_elem_of_here.
    rewrite <-Hf. apply (IH _ Hs). intros g Hg. apply Hno. by apply list_elem_of_further.
Qed.

Lemma main_not_a_folder w folder fs :
  is_dir w folder = false →
  main w folder fs = (fs, Raise (SystemExit ("Folder not found: " +:+ folder))).
Proof. intros Hd. unfold main. by rewrite Hd. Qed.

Lemma main_no_images w folder fs :
  is_dir w folder = true → images w folder = [] →
  main w folder fs = (fs, Raise (SystemExit "No supported images found.")).
Proof. intros Hd Hf. unfold main. by rewrite Hd, Hf. Qed.

Lemma main_scan_raises w folder fs e :
  is_dir w folder = true → images w folder ≠ [] →
  scan w empty_counters (images w folder) = Raise e →
  main w folder fs = (fs, Raise e).
Proof.
  intros Hd Hf Hs. unfold main. rewrite Hd, Hs. simpl.
  by destruct (images w folder).
Qed.

Lemma main_no_data w folder fs st :
  is_dir w folder = true → images w folder ≠ [] →
  scan w empty_counters (images w folder) = Ok st → hist st = ∅ →
  main w folder fs =
    (fs, Raise (SystemExit "No focal-length data found (tags missing).")).
Proof.
  intros Hd Hf Hs Hh. unfold main. rewrite Hd, Hs. simpl.
  rewrite bool_decide_eq_true_2 by done. by destruct (images w folder).
Qed.

Lemma main_reports w folder fs st :
  is_dir w folder = true → images w folder ≠ [] →
  scan w empty_counters (images w folder) = Ok st → hist st ≠ ∅ →
  main w folder fs = (write_reports folder st fs, Ok ()).
Proof.
  intros Hd Hf Hs Hh. unfold main. rewrite Hd, Hs. simpl.
  rewrite bool_decide_eq_false_2 by done. by destruct (images w folder).
Qed.

(** C4: when the root is not a directory, or the folder holds no file with
    a supported extension, or no image yields a usable 35 mm equivalent, the
    run ends with an exception (the message of [sys.exit], or the traceback
    of an exception of the scan), the exit status is not zero and the file
    system is as it was: none of the three reports is written. *)
Theorem no_output_without_data w folder fs :
  is_dir w folder = false ∨
  images w folder = [] ∨
  (∀ f, f ∈ images w folder → yields_value w f = false) →
  (main w folder fs).1 = fs ∧
  exit_status (main w folder fs).2 ≠ 0 ∧
  (is_dir w folder = false →
     (main w folder fs).2 = Raise (SystemExit ("Folder not found: " +:+ folder))) ∧
  (is_dir w folder = true → images w folder = [] →
     (main w folder fs).2 = Raise (SystemExit "No supported images found.")) ∧
  (is_dir w folder = true → images w folder ≠ [] →
     (∃ st, scan w empty_counters (images w folder) = Ok st) →
     (main w folder fs).2 =
       Raise (SystemExit "No focal-length data found (tags missing).")).
Proof.
  intros Hcase. destruct (is_dir w folder) eqn:Hd.
  2:{ rewrite main_not_a_folder by done. simpl. by split_and!. }
  destruct (decide (images w folder = [])) as [Hf|Hf].
  { rewrite main_no_images by done. simpl. by split_and!. }
  destruct Hcase as [?|[?|Hno]]; [done..|].
  destruct (scan w empty_counters (images w folder)) as [st|e] eqn:Hs.
  - rewrite (main_no_data w folder fs st); [|done|done|done|].
    + simpl. by split_and!.
    + by rewrite (scan_hist_unchanged _ _ _ _ Hs Hno).
  - rewrite (main_scan_raises w folder fs e) by done. simpl.
    split_and!; [done..|]. by intros _ _ [st ?].
Qed.

Lemma no_output_without_data_witness :
  ((main demo_world "elsewhere" ∅).1 = ∅ ∧
   exit_status (main demo_world "elsewhere" ∅).2 ≠ 0) ∧
  ((main text_only_world "docs" ∅).1 = ∅ ∧
   exit_status (main text_only_world "docs" ∅).2 ≠ 0) ∧
  ((main untagged_world "raw" ∅).1 = ∅ ∧
   exit_status (main untagged_world "raw" ∅).2 ≠ 0).
Proof.
  split_and!.
  - apply (no_output_without_data demo_world "elsewhere" ∅).
    left. vm_compute. reflexivity.
  - apply (no_output_without_data demo_world "elsewhere" ∅).
    left. vm_compute. reflexivity.
  - apply (no_output_without_data text_only_world "docs" ∅).
    right. left. vm_compute. reflexivity.
  - apply (no_output_without_data text_only_world "docs" ∅).
    right. left. vm_compute. reflexivity.
  - apply (no_output_without_data untagged_world "raw" ∅).
    right. right. intros f Hf. apply list_elem_of_singleton in Hf as ->.
    vm_compute. reflexivity.
  - apply (no_output_without_data untagged_world "raw" ∅).
    right. right. intros f Hf. apply list_elem_of_singleton in Hf as ->.
    vm_compute. reflexivity.
Defined.

(** C1, as the code has it: when the tool fails on an image (it is missing,
    or it returns a non-zero code) and the images before it were scanned,
    the exception leaves the loop and the script: no later image is read,
    no report is written and the exit status is 1. *)
Theorem tool_failure_ends_the_run w folder fs (pre post : list string) f st :
  is_dir w folder = true →
  images w folder = (pre ++ f :: post)%list →
  scan w empty_counters pre = Ok st →
  (exiftool w f = NotInstalled ∨
   ∃ code out, exiftool w f = Exited code out ∧ code ≠ 0) →
  ∃ e, run_checked (exiftool w f) = Raise e ∧
       (e = FileNotFoundError ∨ ∃ code, e = CalledProcessError code ∧ code ≠ 0) ∧
       scan w empty_counters (images w folder) = Raise e ∧
       main w folder fs = (fs, Raise e) ∧
       exit_status (main w folder fs).2 = 1.
Proof.
  intros Hd Hf Hpre Htool.
  assert (∃ e, run_checked (exiftool w f) = Raise e ∧
               (e = FileNotFoundError ∨
                ∃ code, e = CalledProcessError code ∧ code ≠ 0)) as (e & He & Hk).
  { destruct Htool as [->|(code & out & -> & Hc)]; simpl; [eauto|].
    destruct (Z.eqb_spec code 0); [done|]. eauto 6. }
  assert (scan w empty_counters (images w folder) = Raise e) as Hs.
  { rewrite Hf. eapply scan_stops_at_failure; [done|].
    by apply scan_file_tool_failure. }
  exists e. split_and!; [done..| |].
  - apply main_scan_raises; [done| |done]. rewrite Hf. by destruct pre.
  - rewrite (main_scan_raises w folder fs e); [done|done| |done].
    rewrite Hf. by destruct pre.
Qed.

Lemma tool_failure_ends_the_run_witness :
  main failing_tool_world "pics" ∅ = (∅, Raise (CalledProcessError 1)) ∧
  main no_tool_world "pics" ∅ = (∅, Raise FileNotFoundError).
Proof.
  split.
  - destruct (tool_failure_ends_the_run failing_tool_world "pics" ∅
                [] ["pics/good.jpg"] "pics/bad.jpg" empty_counters)
      as (e & He & _ & _ & Hm & _).
    + vm_compute. reflexivity.
    + vm_compute. reflexivity.
    + reflexivity.
    + right. exists 1, EmptyString. split; [vm_compute; reflexivity|lia].
    + rewrite Hm. f_equal. vm_compute in He. by injection He as <-.
  - destruct (tool_failure_ends_the_run no_tool_world "pics" ∅
                [] [] "pics/one.heic" empty_counters)
      as (e & He & _ & _ & Hm & _).
    + vm_compute. reflexivity.
    + vm_compute. reflexivity.
    + reflexivity.
    + left. vm_compute. reflexivity.
    + rewrite Hm. f_equal. vm_compute in He. by injection He as <-.
Defined.

(** C1 as the spec states it fails: with the tool failing on the first of
    two images, the run ends with the tool's exception, exit status 1 and no
    report, while the same folder without that image is read to the end with
    exit status 0 and a histogram. The failing image is not skipped. *)
Lemma failed_image_is_not_skipped :
  main failing_tool_world "pics" ∅ = (∅, Raise (CalledProcessError 1)) ∧
  exit_status (main failing_tool_world "pics" ∅).2 = 1 ∧
  (main (without failing_tool_world "pics/bad.jpg") "pics" ∅).2 = Ok () ∧
  exit_status (main (without failing_tool_world "pics/bad.jpg") "pics" ∅).2 = 0 ∧
  (main (without failing_tool_world "pics/bad.jpg") "pics" ∅).1
    !! "pics/focal_length_histogram.csv"
  = Some (Csv [hist_header; [Int 35; Int 1]]) ∧
  (main failing_tool_world "pics" ∅).1 !! "pics/focal_length_histogram.csv" = None.
Proof. split_and!; vm_compute; reflexivity. Qed.

(** ** Numeric parsing *)

Lemma to_float_no_number s : num_run (default EmptyString s) = EmptyString → to_float s = Ok None.
Proof. intros Hr. unfold to_float, num_match. by rewrite Hr. Qed.

Lemma num_run_idemp s : num_run (num_run s) = num_run s.
Proof.
  induction s as [|c s IH]; [done|]. simpl.
  destruct (is_digit c || is_dot c) eqn:Hc; [|done]. simpl. by rewrite Hc, IH.
Qed.

Lemma digit_not_dot c : is_digit c = true → is_dot c = false.
Proof.
  unfold is_digit, is_dot, Str.between.
  intros [H1 H2]%andb_prop. apply N.leb_le in H1. apply N.eqb_neq. lia.
Qed.

(** [float] on a run of digits and dots: a number when the run holds at
    most one dot and at least one digit, a [ValueError] otherwise *)
Lemma float_digits_outcome g :
  num_run g = g →
  ∀ (seen any : bool) (m : N) (k : nat),
    let dots := ((if seen then 1 else 0) + count_chars is_dot g)%nat in
    let some_digit := any || bool_decide (1 ≤ count_chars is_digit g)%nat in
    if bool_decide (dots ≤ 1)%nat && some_digit
    then ∃ x, float_digits seen any m k g = Ok x
    else float_digits seen any m k g = Raise ValueError.
Proof.
  induction g as [|c g IH]; intros Hrun seen any m k; simpl.
  - destruct seen, any; simpl; eauto.
  - simpl in Hrun. destruct (is_digit c) eqn:Hd; simpl in *.
    + injection Hrun as Hrun. rewrite (digit_not_dot c Hd). simpl.
      specialize (IH Hrun seen true (10 * m + (Str.code c - 48))%N
                    (if seen then S k else k)). simpl in IH.
      rewrite orb_true_r. rewrite andb_true_r in *. exact IH.
    + destruct (is_dot c) eqn:Hdot; [|done]. injection Hrun as Hrun.
      destruct seen; simpl.
      * done.
      * specialize (IH Hrun true any m k). simpl in IH. exact IH.
Qed.

(** when [to_float] raises: exactly on a leading run of digits and dots
    with two dots or more, or without a digit *)
Lemma to_float_raises_iff s :
  (∃ e, to_float s = Raise e) ↔
  num_run (default EmptyString s) ≠ EmptyString ∧
  ((2 ≤ count_chars is_dot (num_run (default EmptyString s)))%nat ∨
   count_chars is_digit (num_run (default EmptyString s)) = 0%nat).
Proof.
  unfold to_float, num_match.
  assert (num_run (num_run (default EmptyString s)) = num_run (default EmptyString s))
    as Hrun by apply num_run_idemp.
  generalize dependent (num_run (default EmptyString s)). intros g Hrun.
  pose proof (float_digits_outcome g Hrun false false 0%N 0%nat) as Hg.
  simpl in Hg. fold (float_of_text g) in Hg.
  destruct (decide (g = EmptyString)) as [->|Hne].
  { split; [by intros [e ?]|by intros [? _]]. }
  destruct g as [|c g']; [done|]. remember (String c g') as g eqn:Hgeq.
  clear Hgeq c g'.
  destruct (bool_decide (count_chars is_dot g ≤ 1)%nat) eqn:Hdots;
    destruct (bool_decide (1 ≤ count_chars is_digit g)%nat) eqn:Hdig;
    simpl in Hg;
    try apply bool_decide_eq_true in Hdots; try apply bool_decide_eq_false in Hdots;
    try apply bool_decide_eq_true in Hdig; try apply bool_decide_eq_false in Hdig.
  - destruct Hg as [x ->]. simpl. split; [by intros [e ?]|].
    intros [_ [?|?]]; lia.
  - rewrite Hg. simpl. split; [|by eauto]. intros _. split; [done|right; lia].
  - rewrite Hg. simpl. split; [|by eauto]. intros _. split; [done|left; lia].
  - rewrite Hg. simpl. split; [|by eauto]. intros _. split; [done|left; lia].
Qed.

Lemma float_digits_exn g : ∀ (seen any : bool) (m : N) (k : nat) e,
  float_digits seen any m k g = Raise e → e = ValueError.
Proof.
  induction g as [|c g IH]; intros seen any m k e; simpl.
  - destruct any; [done|]. by intros [= <-].
  - destruct (is_digit c); [apply IH|].
    destruct (is_dot c && negb seen); [apply IH|]. by intros [= <-].
Qed.

Lemma to_float_exn s e : to_float s = Raise e → e = ValueError.
Proof.
  unfold to_float. destruct (num_match (default EmptyString s)) as [g|]; [|done].
  unfold float_of_text.
  destruct (float_digits false false 0%N 0%nat g) as [x|e'] eqn:Hg; [done|].
  simpl. intros [= <-]. by eapply float_digits_exn.
Qed.

(** C7, where the code departs from the claim: a text that starts with
    digits reads as its leading number and a text without a leading digit or
    dot reads as absent, but a leading run of digits and dots that is no
    number (two dots, or dots only) makes [float] raise [ValueError]
    instead of reading as absent. *)
Theorem to_float_raises_on_dotted_text :
  to_float (Some "35 mm") = Ok (Some 35%float) ∧
  to_float (Some EmptyString) = Ok None ∧
  to_float None = Ok None ∧
  to_float (Some "mm") = Ok None ∧
  to_float (Some "1.2.3") = Raise ValueError ∧
  to_float (Some ".") = Raise ValueError ∧
  to_float (Some "...") = Raise ValueError.
Proof. split_and!; vm_compute; reflexivity. Qed.

(** ** The normalizer *)

Lemma first_usable_both meta c s :
  to_float (get meta "FL35Comp") = Ok c →
  to_float (get meta "FL35") = Ok s →
  first_usable meta ["FL35Comp"; "FL35"] =
    Ok (if usable c then c else if usable s then s else None).
Proof.
  intros Hc Hs. simpl. rewrite Hc. simpl.
  destruct (usable c); [done|]. rewrite Hs. simpl. by destruct (usable s).
Qed.

Lemma ff_equiv_composite meta native c :
  to_float (get meta "FL35Comp") = Ok c → usable c = true →
  ff_equiv meta native = Ok c.
Proof.
  intros Hc Hu. unfold ff_equiv. simpl. rewrite Hc. simpl. rewrite Hu. simpl.
  by destruct c.
Qed.

Lemma ff_equiv_separate meta native c s :
  to_float (get meta "FL35Comp") = Ok c → usable c = false →
  to_float (get meta "FL35") = Ok s → usable s = true →
  ff_equiv meta native = Ok s.
Proof.
  intros Hc Hu Hs Hv. unfold ff_equiv.
  rewrite (first_usable_both meta c s Hc Hs), Hu, Hv. simpl. by destruct s.
Qed.

Lemma ff_equiv_crop meta native c s :
  to_float (get meta "FL35Comp") = Ok c → usable c = false →
  to_float (get meta "FL35") = Ok s → usable s = false →
  ff_equiv meta native = crop_rule meta native.
Proof.
  intros Hc Hu Hs Hv. unfold ff_equiv.
  by rewrite (first_usable_both meta c s Hc Hs), Hu, Hv.
Qed.

(** C5, as the code has it: the order of the sources is fixed. A composite
    value that parses to a number other than zero is returned, whatever the
    separate tag holds; the separate tag is consulted when the composite is
    absent or zero, and is returned when it parses to a number other than
    zero; the crop-factor rule applies when both are absent or zero. *)
Theorem ff_equiv_priority meta native c :
  to_float (get meta "FL35Comp") = Ok c →
  (usable c = true → ff_equiv meta native = Ok c) ∧
  (usable c = false →
   ∀ s, to_float (get meta "FL35") = Ok s →
        (usable s = true → ff_equiv meta native = Ok s) ∧
        (usable s = false → ff_equiv meta native = crop_rule meta native)).
Proof.
  intros Hc. split.
  - by apply ff_equiv_composite.
  - intros Hu s Hs. split; intros Hv.
    + by apply (ff_equiv_separate meta native c s).
    + by apply (ff_equiv_crop meta native c s).
Qed.

Lemma ff_equiv_priority_witness :
  ff_equiv both_tags_meta (Some 50%float) = Ok (Some 75%float) ∧
  ff_equiv zero_composite_meta (Some 50%float) = Ok (Some 80%float) ∧
  ff_equiv other_meta (Some 23%float) = crop_rule other_meta (Some 23%float).
Proof.
  split_and!.
  - destruct (ff_equiv_priority both_tags_meta (Some 50%float) (Some 75%float))
      as [Hcomposite _]; [vm_compute; reflexivity|].
    apply Hcomposite. vm_compute. reflexivity.
  - destruct (ff_equiv_priority zero_composite_meta (Some 50%float) (Some 0%float))
      as [_ Hnext]; [vm_compute; reflexivity|].
    destruct (Hnext eq_refl (Some 80%float)) as [Hseparate _];
      [vm_compute; reflexivity|].
    apply Hseparate. vm_compute. reflexivity.
  - destruct (ff_equiv_priority other_meta (Some 23%float) None)
      as [_ Hnext]; [vm_compute; reflexivity|].
    destruct (Hnext eq_refl None) as [_ Hcrop]; [vm_compute; reflexivity|].
    apply Hcrop. reflexivity.
Defined.

(** C5 as the spec states it fails: both the composite value and the
    separate tag of this record parse to a number (0.0 and 80.0), and the
    value returned is the separate tag's, not the composite's. *)
Lemma zero_composite_yields_to_separate_tag :
  to_float (get zero_composite_meta "FL35Comp") = Ok (Some 0%float) ∧
  to_float (get zero_composite_meta "FL35") = Ok (Some 80%float) ∧
  ff_equiv zero_composite_meta (Some 50%float) = Ok (Some 80%float) ∧
  ff_equiv zero_composite_meta (Some 50%float) ≠ Ok (Some 0%float).
Proof. split_and!; [vm_compute; reflexivity..|]. vm_compute. discriminate. Qed.

Lemma crop_rule_make meta make x :
  meta !! "Make" = Some (Some make) →
  crop_rule meta (Some x) =
    Ok (Some (if Str.contains "FUJIFILM" (Str.upper make)
              then PrimFloat.mul x CROP_APSC else x)).
Proof.
  intros Hm. unfold crop_rule, get_or_empty. rewrite Hm. simpl.
  by destruct (Str.contains "FUJIFILM" (Str.upper make)).
Qed.

(** C2, as the code has it: when neither 35 mm tag gives a number other
    than zero and the native focal length is known, the normalizer returns
    the native value times 1.5 if the upper-cased manufacturer text contains
    FUJIFILM and the native value itself otherwise; the histogram key is that
    value rounded to the nearest integer, a tie going to the even one.  So
    native 23 with the marker gives 34.5 and the key 34, and native 23
    without the marker gives the key 23. *)
Theorem crop_factor_rule w f st meta make x c s v :
  exif_vals w f = Ok meta →
  to_float (get meta "FL") = Ok (Some x) →
  to_float (get meta "FL35Comp") = Ok c → usable c = false →
  to_float (get meta "FL35") = Ok s → usable s = false →
  meta !! "Make" = Some (Some make) →
  v = (if Str.contains "FUJIFILM" (Str.upper make)
       then PrimFloat.mul x CROP_APSC else x) →
  ff_equiv meta (Some x) = Ok (Some v) ∧
  (∀ k n, Float.truthy v = true → Float.truthy x = true →
          Float.round v = Ok k → Float.round x = Ok n →
          scan_file w st f =
            Ok (Counters (incr k (hist st))
                         (incr (camera meta, n, k) (camfx st)))) ∧
  PrimFloat.mul 23%float CROP_APSC = 34.5%float ∧
  Float.round 34.5%float = Ok 34 ∧
  Float.round 23%float = Ok 23.
Proof.
  intros He Hx Hc Hcu Hs Hsu Hm Hveq.
  assert (ff_equiv meta (Some x) = Ok (Some v)) as Hff.
  { rewrite (ff_equiv_crop meta (Some x) c s), Hveq by done.
    by apply crop_rule_make. }
  split_and!; [done| |vm_compute; reflexivity..].
  intros k n Hv Ht Hk Hn. unfold scan_file. rewrite He. simpl.
  rewrite Hx. simpl. rewrite Hff. simpl. rewrite Hv, Ht, Hk. simpl.
  by rewrite Hn.
Qed.

Lemma crop_factor_rule_witness :
  ff_equiv fuji_meta (Some 23%float) = Ok (Some 34.5%float) ∧
  scan_file demo_world empty_counters "photos/a.jpg" =
    Ok (Counters (incr 34 ∅) (incr ("X100V", 23, 34) ∅)).
Proof.
  destruct (crop_factor_rule demo_world "photos/a.jpg" empty_counters
              fuji_meta "Fujifilm" 23%float None None 34.5%float)
    as (Hff & Hscan & _); try (vm_compute; reflexivity).
  split; [exact Hff|].
  rewrite (Hscan 34 23) by (vm_compute; reflexivity).
  vm_compute. reflexivity.
Defined.

(** C2 as the spec states it fails: native 23 with the marker gives 34.5,
    and [round] takes the tie to the even integer 34, not to 35; the scan of
    such a file counts it under 34. *)
Lemma crop_of_23_is_counted_under_34 :
  ff_equiv fuji_meta (Some 23%float) = Ok (Some 34.5%float) ∧
  Float.round 34.5%float = Ok 34 ∧
  Float.round 34.5%float ≠ Ok 35 ∧
  ff_equiv other_meta (Some 23%float) = Ok (Some 23%float) ∧
  ∃ st, scan demo_world empty_counters ["photos/a.jpg"] = Ok st ∧
        count (hist st) 34 = 1%nat ∧ count (hist st) 35 = 0%nat.
Proof.
  split_and!; [vm_compute; reflexivity..|vm_compute; discriminate| |].
  - vm_compute. reflexivity.
  - eexists. split_and!; vm_compute; reflexivity.
Qed.

(** ** The camera identifier *)

Lemma camera_unfold meta :
  camera meta =
    let make := Str.upper (default EmptyString (get meta "Make")) in
    let model := default EmptyString (get meta "Model") in
    if Str.contains "APPLE" make then "iPhone"
    else if Str.contains "FUJIFILM" make then
      if Str.contains "X-T5" (Str.upper model) then "XT5" else model
    else if nonempty model then model
    else if nonempty make then make
    else "Unknown".
Proof. reflexivity. Qed.

(** C6: the rules of the camera identifier apply in order, on the
    upper-cased manufacturer text.  The four labels of the spec come out as
    stated, also with the markers in lower case; and for every record whose
    manufacturer holds neither marker, a model that is not empty is the
    label, whatever the manufacturer text is. *)
Theorem camera_rules :
  camera (record [Some "APPLE INC."; Some "iPhone 12"]) = "iPhone" ∧
  camera (record [Some "FUJIFILM"; Some "X-T5 "]) = "XT5" ∧
  camera (record [Some "FUJIFILM"; Some "X100V"]) = "X100V" ∧
  camera (record [Some EmptyString; Some EmptyString]) = "Unknown" ∧
  camera (record []) = "Unknown" ∧
  camera (record [Some "Apple"; Some "X-T5"]) = "iPhone" ∧
  camera (record [Some "Fujifilm Corp."; Some "x-t5"]) = "XT5" ∧
  camera (record [Some "Canon"; Some EmptyString]) = "CANON" ∧
  (∀ meta,
     Str.contains "APPLE" (Str.upper (default EmptyString (get meta "Make"))) = true →
     camera meta = "iPhone") ∧
  (∀ meta model,
     Str.contains "APPLE" (Str.upper (default EmptyString (get meta "Make"))) = false →
     Str.contains "FUJIFILM" (Str.upper (default EmptyString (get meta "Make"))) = false →
     get meta "Model" = Some model → model ≠ EmptyString →
     camera meta = model).
Proof.
  split_and!; [vm_compute; reflexivity..| |].
  - intros meta Ha. rewrite camera_unfold. simpl. by rewrite Ha.
  - intros meta model Ha Hf Hm Hne. rewrite camera_unfold. simpl.
    rewrite Ha, Hf, Hm. simpl. unfold nonempty.
    by destruct (String.eqb_spec model EmptyString).
Qed.

(** ** The extractor *)

Lemma padded_lookup (lines : list string) i :
  (i < 5)%nat →
  ((Some <$> lines) ++ replicate 5 None)%list !! i = Some (lines !! i).
Proof.
  intros Hi. destruct (lines !! i) as [l|] eqn:Hl.
  - rewrite lookup_app_l by (rewrite length_fmap; by eapply lookup_lt_Some).
    by rewrite list_lookup_fmap, Hl.
  - apply lookup_ge_None in Hl.
    rewrite lookup_app_r by (by rewrite length_fmap).
    rewrite length_fmap. apply lookup_replicate_2. lia.
Qed.

Lemma record_lookup (values : list (option string)) i key :
  keys !! i = Some key → (5 ≤ length values)%nat →
  record values !! key = values !! i.
Proof.
  intros Hk Hlen.
  destruct values as [|v0 [|v1 [|v2 [|v3 [|v4 rest]]]]]; simpl in Hlen; try lia.
  unfold record, dict, keys in *. simpl.
  destruct i as [|[|[|[|[|i]]]]]; simpl in Hk; simplify_eq; by simplify_map_eq.
Qed.

Lemma exif_vals_exit_0 w path out :
  exiftool w path = Exited 0 out →
  exif_vals w path =
    Ok (record ((Some <$> Str.splitlines (Str.strip out)) ++ replicate 5 None)%list).
Proof. intros Ht. unfold exif_vals. by rewrite Ht. Qed.

Lemma scan_file_no_focal_tags w st path meta :
  exif_vals w path = Ok meta →
  get meta "FL" = None → get meta "FL35" = None → get meta "FL35Comp" = None →
  scan_file w st path = Ok st.
Proof.
  intros He H1 H2 H3. unfold scan_file, ff_equiv. rewrite He. simpl.
  rewrite H1, H2, H3. simpl. by destruct st.
Qed.

(** *** What the loop body can raise on a record of the extractor *)

Lemma run_checked_Ok r out : run_checked r = Ok out → r = Exited 0 out.
Proof.
  destruct r as [code out'|]; simpl; [|done].
  destruct (Z.eqb_spec code 0) as [->|]; [|done]. by intros [= ->].
Qed.

Lemma exif_vals_Ok w f meta :
  exif_vals w f = Ok meta →
  ∃ out, exiftool w f = Exited 0 out ∧
         meta = record ((Some <$> Str.splitlines (Str.strip out))
                        ++ replicate 5 None)%list.
Proof.
  unfold exif_vals. destruct (run_checked (exiftool w f)) as [out|] eqn:Hr; [|done].
  apply run_checked_Ok in Hr. simpl. intros [= <-]. eauto.
Qed.

Lemma exif_vals_field w f meta i key :
  exif_vals w f = Ok meta → keys !! i = Some key →
  ∃ out, exiftool w f = Exited 0 out ∧
         meta !! key = Some (Str.splitlines (Str.strip out) !! i).
Proof.
  intros (out & Ht & ->)%exif_vals_Ok Hk. exists out. split; [done|].
  rewrite (record_lookup _ i) by (rewrite ?length_app, ?length_replicate; done || lia).
  apply padded_lookup. apply lookup_lt_Some in Hk. simpl in Hk. lia.
Qed.

(** a record with a focal length line has a manufacturer line *)
Lemma exif_vals_make w f meta t :
  exif_vals w f = Ok meta → get meta "FL" = Some t →
  ∃ make, meta !! "Make" = Some (Some make).
Proof.
  intros He Hfl.
  destruct (exif_vals_field w f meta 2%nat "FL" He eq_refl) as (out & Ht & H2).
  destruct (exif_vals_field w f meta 0%nat "Make" He eq_refl) as (out' & Ht' & H0).
  rewrite Ht in Ht'. injection Ht' as <-.
  unfold get in Hfl. rewrite H2 in Hfl. simpl in Hfl.
  destruct (Str.splitlines (Str.strip out)) as [|make lines]; [done|].
  rewrite H0. simpl. eauto.
Qed.

Lemma round_exn x e : Float.round x = Raise e → e = ValueError ∨ e = OverflowError.
Proof.
  unfold Float.round. destruct (Prim2SF x); intros [= <-]; auto.
Qed.

Lemma first_usable_exn meta tags e :
  first_usable meta tags = Raise e → e = ValueError.
Proof.
  induction tags as [|tag tags IH]; simpl; [done|].
  destruct (to_float (get meta tag)) as [mm|e'] eqn:Hmm; simpl.
  - destruct (usable mm); [done|apply IH].
  - intros [= <-]. by eapply to_float_exn.
Qed.

Lemma to_float_Some s x : to_float s = Ok (Some x) → ∃ t, s = Some t.
Proof. destruct s as [t|]; [eauto|]. by vm_compute. Qed.

Lemma to_float_None : to_float None = Ok None.
Proof. reflexivity. Qed.

(** the normalizer on a record without the composite tag *)
Lemma ff_equiv_no_composite meta native :
  get meta "FL35Comp" = None →
  ff_equiv meta native =
    s ← to_float (get meta "FL35");
    if usable s then Ok s else crop_rule meta native.
Proof.
  intros Hc. unfold ff_equiv. cbn [first_usable]. rewrite Hc, to_float_None.
  cbn [mbind result_bind usable].
  destruct (to_float (get meta "FL35")) as [[x|]|]; [|done..].
  cbn. by destruct (Float.truthy x).
Qed.

(** where an exception of the loop body comes from, on a record without the
    composite tag *)
Lemma scan_file_failure_source w st f meta e :
  exif_vals w f = Ok meta → get meta "FL35Comp" = None →
  scan_file w st f = Raise e →
  to_float (get meta "FL") = Raise e ∨
  to_float (get meta "FL35") = Raise e ∨
  ∃ native s x,
    to_float (get meta "FL") = Ok native ∧ to_float (get meta "FL35") = Ok s ∧
    (native = Some x ∨ s = Some x ∨
     ∃ y, native = Some y ∧ x = PrimFloat.mul y CROP_APSC) ∧
    Float.round x = Raise e.
Proof.
  intros He Hc Hs. unfold scan_file in Hs. rewrite He in Hs.
  cbn [mbind result_bind] in Hs.
  destruct (to_float (get meta "FL")) as [native|e0] eqn:Hn;
    cbn [mbind result_bind] in Hs.
  2:{ left. congruence. }
  rewrite (ff_equiv_no_composite meta native Hc) in Hs.
  destruct (to_float (get meta "FL35")) as [s|e0] eqn:Hs35;
    cbn [mbind result_bind] in Hs.
  2:{ right. left. congruence. }
  right. right.
  assert (∀ ff : float,
    (s = Some ff ∨ ∃ y, native = Some y ∧
                        (ff = y ∨ ff = PrimFloat.mul y CROP_APSC)) →
    (hist' ←
       (if Float.truthy ff then k ← Float.round ff; Ok (incr k (hist st))
        else Ok (hist st));
     camfx' ←
       match native with
       | Some nat_mm =>
           if Float.truthy nat_mm && Float.truthy ff then
             n ← Float.round nat_mm;
             k ← Float.round ff;
             Ok (incr (camera meta, n, k) (camfx st))
           else Ok (camfx st)
       | None => Ok (camfx st)
       end;
     Ok (Counters hist' camfx')) = Raise e →
    ∃ native' s' x,
      Ok native = Ok native' ∧ Ok s = Ok s' ∧
      (native' = Some x ∨ s' = Some x ∨
       ∃ y, native' = Some y ∧ x = PrimFloat.mul y CROP_APSC) ∧
      Float.round x = Raise e) as Hcount.
  { intros ff Hff Hr. exists native, s.
    assert (native = Some ff ∨ s = Some ff ∨
            ∃ y, native = Some y ∧ ff = PrimFloat.mul y CROP_APSC) as Hff'.
    { destruct Hff as [?|(y & ? & [->| ->])]; eauto. }
    destruct (Float.truthy ff); cbn [mbind result_bind] in Hr.
    - destruct (Float.round ff) as [k|e1] eqn:Hk; cbn [mbind result_bind] in Hr.
      + destruct native as [x|]; [|done].
        destruct (Float.truthy x); cbn [andb mbind result_bind] in Hr; [|done].
        destruct (Float.round x) as [n|e1] eqn:Hx; cbn [mbind result_bind] in Hr;
          [done|].
        exists x. split_and!; [done..|by left|congruence].
      + exists ff. split_and!; [done..|congruence].
    - destruct native as [x|]; [|done]. by rewrite andb_false_r in Hr. }
  destruct (usable s) eqn:Hu.
  - destruct s as [ff|]; [|done]. apply (Hcount ff); [by left|].
    destruct native; exact Hs.
  - unfold crop_rule in Hs. destruct native as [x|]; [|done].
    destruct (to_float_Some _ _ Hn) as [t Ht].
    destruct (exif_vals_make w f meta t He Ht) as [make Hm].
    unfold get_or_empty in Hs. rewrite Hm in Hs.
    cbn [default from_option id] in Hs.
    destruct (Str.contains "FUJIFILM" (Str.upper make));
      cbn [mbind result_bind] in Hs.
    + apply (Hcount (PrimFloat.mul x CROP_APSC)); [right; eauto|exact Hs].
    + apply (Hcount x); [right; eauto|exact Hs].
Qed.

(** C8: when the tool ends with return code 0 and its output has fewer
    than five lines, the extractor returns a record and raises nothing; the
    record holds all five keys, the key of every line that is there with that
    line and the key of every missing line with [None].  With fewer than
    three lines no focal length is there at all and the loop body leaves the
    counters as they were.  With three or four lines the loop body goes on
    to the normalizer, and a missing line never makes it raise: it raises no
    [AttributeError]; what it raises is what [to_float] raises on the text
    of the focal length line or of the 35 mm line, or what [round] raises on
    a value read from them; and it raises nothing when these two texts parse
    and the values read from them can be rounded. *)
Theorem missing_lines_are_absent w path out :
  exiftool w path = Exited 0 out →
  (length (Str.splitlines (Str.strip out)) < 5)%nat →
  ∃ meta,
    exif_vals w path = Ok meta ∧
    (∀ i key, keys !! i = Some key →
       meta !! key = Some (Str.splitlines (Str.strip out) !! i)) ∧
    (∀ i key, keys !! i = Some key →
       (length (Str.splitlines (Str.strip out)) ≤ i)%nat →
       meta !! key = Some None ∧ get meta key = None) ∧
    get meta "FL35Comp" = None ∧
    ((length (Str.splitlines (Str.strip out)) < 3)%nat →
     ∀ st, scan_file w st path = Ok st) ∧
    (∀ st, scan_file w st path ≠ Raise AttributeError) ∧
    (∀ st e, scan_file w st path = Raise e →
       to_float (Str.splitlines (Str.strip out) !! 2%nat) = Raise e ∨
       to_float (Str.splitlines (Str.strip out) !! 3%nat) = Raise e ∨
       ∃ native s x,
         to_float (Str.splitlines (Str.strip out) !! 2%nat) = Ok native ∧
         to_float (Str.splitlines (Str.strip out) !! 3%nat) = Ok s ∧
         (native = Some x ∨ s = Some x ∨
          ∃ y, native = Some y ∧ x = PrimFloat.mul y CROP_APSC) ∧
         Float.round x = Raise e) ∧
    (∀ st native s,
       to_float (Str.splitlines (Str.strip out) !! 2%nat) = Ok native →
       to_float (Str.splitlines (Str.strip out) !! 3%nat) = Ok s →
       (∀ x, native = Some x ∨ s = Some x ∨
             (∃ y, native = Some y ∧ x = PrimFloat.mul y CROP_APSC) →
             ∃ k, Float.round x = Ok k) →
       ∃ st', scan_file w st path = Ok st').
Proof.
  intros Ht Hlen. pose proof (exif_vals_exit_0 w path out Ht) as He.
  set (lines := Str.splitlines (Str.strip out)) in *.
  set (meta := record ((Some <$> lines) ++ replicate 5 None)%list) in *.
  assert (∀ i key, keys !! i = Some key → meta !! key = Some (lines !! i)) as Hget.
  { intros i key Hk. unfold meta.
    rewrite (record_lookup _ i) by (rewrite ?length_app, ?length_replicate; done || lia).
    apply padded_lookup. apply lookup_lt_Some in Hk. simpl in Hk. lia. }
  assert (∀ i key, keys !! i = Some key → (length lines ≤ i)%nat →
                   meta !! key = Some None ∧ get meta key = None) as Hnone.
  { intros i key Hk Hi. unfold get. rewrite (Hget i key Hk).
    by rewrite (proj2 (lookup_ge_None lines i)). }
  assert (get meta "FL35Comp" = None) as Hcomp by (apply (Hnone 4%nat); [done|lia]).
  assert (get meta "FL" = lines !! 2%nat) as Hfl
    by (unfold get; by rewrite (Hget 2%nat "FL")).
  assert (get meta "FL35" = lines !! 3%nat) as Hfl35
    by (unfold get; by rewrite (Hget 3%nat "FL35")).
  assert (∀ st e, scan_file w st path = Raise e →
            to_float (lines !! 2%nat) = Raise e ∨
            to_float (lines !! 3%nat) = Raise e ∨
            ∃ native s x,
              to_float (lines !! 2%nat) = Ok native ∧
              to_float (lines !! 3%nat) = Ok s ∧
              (native = Some x ∨ s = Some x ∨
               ∃ y, native = Some y ∧ x = PrimFloat.mul y CROP_APSC) ∧
              Float.round x = Raise e) as Hsource.
  { intros st e Hs. rewrite <-Hfl, <-Hfl35.
    by apply (scan_file_failure_source w st path meta e). }
  exists meta. split_and!; [done..| | | |].
  - intros Hshort st. apply (scan_file_no_focal_tags w st path meta He).
    + apply (Hnone 2%nat); [done|lia].
    + apply (Hnone 3%nat); [done|lia].
    + done.
  - intros st Hs.
    destruct (Hsource st _ Hs) as [Hr|[Hr|(native & s & x & _ & _ & _ & Hr)]].
    + by apply to_float_exn in Hr.
    + by apply to_float_exn in Hr.
    + by apply round_exn in Hr as [?|?].
  - done.
  - intros st native s Hn Hs35 Hround.
    destruct (scan_file w st path) as [st'|e] eqn:Hs; [eauto|].
    destruct (Hsource st e Hs) as [Hr|[Hr|(native' & s' & x & Hn' & Hs' & Hx & Hr)]].
    + congruence.
    + congruence.
    + assert (native' = native) as -> by congruence.
      assert (s' = s) as -> by congruence.
      destruct (Hround x Hx) as [k Hk]. congruence.
Qed.

Lemma missing_lines_are_absent_witness :
  ∃ meta,
    exif_vals demo_world "photos/a.jpg" = Ok meta ∧
    meta !! "FL" = Some (Some "23.0 mm") ∧
    meta !! "FL35" = Some None ∧
    meta !! "FL35Comp" = Some None ∧
    ∃ st', scan_file demo_world empty_counters "photos/a.jpg" = Ok st'.
Proof.
  destruct (missing_lines_are_absent demo_world "photos/a.jpg"
              (output ["Fujifilm"; "X100V"; "23.0 mm"]))
    as (meta & He & Hget & Hnone & _ & _ & _ & _ & Hgoes).
  - vm_compute. reflexivity.
  - vm_compute. lia.
  - exists meta. split_and!; [done| | | |].
    + by rewrite (Hget 2%nat "FL").
    + by rewrite (Hget 3%nat "FL35").
    + by rewrite (Hget 4%nat "FL35Comp").
    + apply (Hgoes empty_counters (Some 23%float) None).
      * vm_compute. reflexivity.
      * vm_compute. reflexivity.
      * intros x [[= <-]|[[=]|(y & [= <-] & ->)]]; vm_compute; eauto.
Defined.

(** ** The order of the rows *)

#[global] Instance hist_le_total : Total hist_le.
Proof. intros [a m] [b n]. unfold hist_le. simpl. lia. Qed.

#[global] Instance hist_le_trans : Transitive hist_le.
Proof. intros [a m] [b n] [c k]. unfold hist_le. simpl. lia. Qed.

#[global] Instance hist_le_antisym : AntiSymm (=) hist_le.
Proof.
  intros [a m] [b n]. unfold hist_le. simpl. intros H1 H2.
  f_equal; lia.
Qed.

Lemma string_le_antisym (a b : string) : String.le a b → String.le b a → a = b.
Proof. intros. by apply (anti_symm String.le). Qed.

#[global] Instance key_le_total : Total key_le.
Proof.
  intros [[a m] i] [[b n] j]. unfold key_le. simpl.
  destruct (decide (a = b)) as [->|Hne].
  - assert (m < n ∨ m = n ∧ i ≤ j ∨ n < m ∨ n = m ∧ j ≤ i) as Hz by lia.
    destruct Hz as [?|[?|[?|?]]]; [left|left|right|right]; right; split; auto.
  - destruct (base.total String.le a b); [left|right]; left; split; auto.
Qed.

#[global] Instance key_le_trans : Transitive key_le.
Proof.
  intros [[a m] i] [[b n] j] [[c k] l]. unfold key_le. simpl.
  intros [[Hab Hle1]|[-> H1]] [[Hbc Hle2]|[-> H2]].
  - left. split; [|by etrans].
    intros ->. apply Hab. by apply string_le_antisym.
  - left. by split.
  - left. by split.
  - right. split; [done|lia].
Qed.

#[global] Instance key_le_antisym : AntiSymm (=) key_le.
Proof.
  intros [[a m] i] [[b n] j]. unfold key_le. simpl.
  intros [[Hab Hle1]|[-> H1]] [[Hba Hle2]|[Heq H2]]; try done.
  - destruct Hab. by apply string_le_antisym.
  - repeat f_equal; lia.
Qed.

#[global] Instance camfx_le_total : Total camfx_le.
Proof.
  intros [x m] [y n]. unfold camfx_le. simpl.
  destruct (decide (x = y)) as [->|Hne].
  - destruct (decide (m ≤ n)%nat); [left|right]; right; split; auto; lia.
  - destruct (base.total key_le x y); [left|right]; left; split; auto.
Qed.

#[global] Instance camfx_le_trans : Transitive camfx_le.
Proof.
  intros [x m] [y n] [z k]. unfold camfx_le. simpl.
  intros [[Hxy Hle1]|[-> H1]] [[Hyz Hle2]|[-> H2]].
  - left. split; [|by etrans].
    intros ->. apply Hxy. by apply (anti_symm key_le).
  - left. by split.
  - left. by split.
  - right. split; [done|lia].
Qed.

Lemma sorted_distinct_keys {A B} (key : A → B) (R S : relation A) (l : list A) :
  (∀ x y, R x y → key x ≠ key y → S x y) →
  StronglySorted R l → NoDup (key <$> l) → StronglySorted S l.
Proof.
  intros HRS Hsorted. induction Hsorted as [|x l Hl IH Hx]; intros Hnd.
  - constructor.
  - rewrite fmap_cons in Hnd. apply NoDup_cons in Hnd as [Hnot Hnd].
    constructor; [by apply IH|].
    apply Forall_forall. intros y Hy. apply HRS.
    + by apply (proj1 (Forall_forall _ _) Hx).
    + intros Heq. apply Hnot. rewrite Heq. by apply list_elem_of_fmap_2.
Qed.

(** the rows of the overall histogram: one per key, ascending by key *)
Lemma sorted_hist_spec (c : gmap Z nat) :
  (∀ mm n, (mm, n) ∈ sorted_hist c ↔ c !! mm = Some n) ∧
  NoDup (sorted_hist c).*1 ∧
  StronglySorted (λ x y, x.1 < y.1) (sorted_hist c).
Proof.
  pose proof (merge_sort_Permutation hist_le (map_to_list c)) as Hperm.
  fold (sorted_hist c) in Hperm.
  assert (NoDup (sorted_hist c).*1) as Hnd.
  { rewrite Hperm. apply NoDup_fst_map_to_list. }
  split_and!; [|done|].
  - intros mm n. rewrite Hperm. apply elem_of_map_to_list.
  - apply (sorted_distinct_keys fst hist_le); [|apply StronglySorted_merge_sort; apply _|done].
    intros [a m] [b n]. unfold hist_le. simpl. lia.
Qed.

(** the rows of the per-camera histogram: one per triple, ascending *)
Lemma sorted_camfx_spec (c : gmap (string * Z * Z) nat) :
  (∀ key n, (key, n) ∈ sorted_camfx c ↔ c !! key = Some n) ∧
  NoDup (sorted_camfx c).*1 ∧
  StronglySorted (λ x y, key_lt x.1 y.1) (sorted_camfx c).
Proof.
  pose proof (merge_sort_Permutation camfx_le (map_to_list c)) as Hperm.
  fold (sorted_camfx c) in Hperm.
  assert (NoDup (sorted_camfx c).*1) as Hnd.
  { rewrite Hperm. apply NoDup_fst_map_to_list. }
  split_and!; [|done|].
  - intros key n. rewrite Hperm. apply elem_of_map_to_list.
  - apply (sorted_distinct_keys fst camfx_le); [|apply StronglySorted_merge_sort; apply _|done].
    intros [x m] [y n]. unfold camfx_le, key_lt. simpl.
    intros [[_ Hle]|[-> _]] Hne; [done|by destruct Hne].
Qed.

(** ** The reports *)

Lemma join_inj root (a b : string) : join root a = join root b → a = b.
Proof.
  unfold join. intros Heq. apply (inj (String.app root)) in Heq.
  simpl in Heq. by injection Heq.
Qed.

Lemma write_reports_lookup root st fs :
  write_reports root st fs !! join root "focal_length_histogram.csv" =
    Some (Csv (hist_header :: (hist_row <$> sorted_hist (hist st)))) ∧
  write_reports root st fs !! join root "camera_focal_usage.csv" =
    Some (Csv (camfx_header :: (camfx_row <$> sorted_camfx (camfx st)))) ∧
  write_reports root st fs !! join root "focal_length_histogram.png" =
    Some (Chart (sorted_hist (hist st))).
Proof.
  unfold write_reports. split_and!.
  - rewrite !lookup_insert_ne by (intros Heq%join_inj; discriminate).
    apply lookup_insert_eq.
  - rewrite lookup_insert_ne by (intros Heq%join_inj; discriminate).
    apply lookup_insert_eq.
  - apply lookup_insert_eq.
Qed.

Lemma write_reports_other root st fs p :
  p ≠ join root "focal_length_histogram.csv" →
  p ≠ join root "camera_focal_usage.csv" →
  p ≠ join root "focal_length_histogram.png" →
  write_reports root st fs !! p = fs !! p.
Proof. intros. unfold write_reports. by rewrite !lookup_insert_ne. Qed.

Lemma main_Ok w folder fs fs' :
  main w folder fs = (fs', Ok ()) →
  ∃ st, scan w empty_counters (images w folder) = Ok st ∧
        hist st ≠ ∅ ∧ fs' = write_reports folder st fs.
Proof.
  unfold main. destruct (is_dir w folder); simpl; [|done].
  destruct (images w folder) as [|f files]; [done|].
  destruct (scan w empty_counters (f :: files)) as [st|e]; [|done].
  case_bool_decide; [done|]. intros [= <-]. eauto.
Qed.

Lemma scan_file_histogram_key w st f st' k :
  scan_file w st f = Ok st' → histogram_key w f = Some k →
  hist st' = incr k (hist st).
Proof.
  intros Hs Hk. apply scan_file_hist in Hs.
  unfold histogram_key, yields_value in *.
  destruct (focal_35 w f) as [[ff|]|]; try done. simpl in Hs.
  destruct (Float.truthy ff); [|done].
  destruct Hs as (ff' & k' & [= <-] & Hr & ->). rewrite Hr in Hk.
  by injection Hk as ->.
Qed.

Lemma sorted_hist_two (a b : Z) (m n : nat) :
  a < b → sorted_hist (<[a:=m]> {[b:=n]}) = [(a, m); (b, n)].
Proof.
  intros Hab. apply (StronglySorted_unique hist_le).
  - apply StronglySorted_merge_sort; apply _.
  - repeat constructor. unfold hist_le. simpl. lia.
  - unfold sorted_hist. rewrite merge_sort_Permutation.
    rewrite map_to_list_insert by (apply lookup_singleton_ne; lia).
    by rewrite map_to_list_singleton.
Qed.

(** three counted files of which two share a key: two keys, counts 2 and 1 *)
Lemma hist_of_three (k1 k2 k3 a b : Z) :
  a ≠ b →
  (k1 = a ∧ k2 = a ∧ k3 = b) ∨ (k1 = a ∧ k2 = b ∧ k3 = a) ∨
  (k1 = b ∧ k2 = a ∧ k3 = a) →
  incr k3 (incr k2 (incr k1 (∅ : gmap Z nat))) = <[a:=2%nat]> {[b:=1%nat]}.
Proof.
  intros Hne Hk. apply map_eq. intros i.
  destruct Hk as [(-> & -> & ->)|[(-> & -> & ->)|(-> & -> & ->)]];
    unfold incr, count;
    destruct (decide (i = a)); destruct (decide (i = b)); by simplify_map_eq.
Qed.

Lemma rows_of_three w (f1 f2 f3 : string) st (k1 k2 k3 a b : Z) :
  scan w empty_counters [f1; f2; f3] = Ok st →
  histogram_key w f1 = Some k1 →
  histogram_key w f2 = Some k2 →
  histogram_key w f3 = Some k3 →
  a ≠ b →
  (k1 = a ∧ k2 = a ∧ k3 = b) ∨ (k1 = a ∧ k2 = b ∧ k3 = a) ∨
  (k1 = b ∧ k2 = a ∧ k3 = a) →
  hist_row <$> sorted_hist (hist st) =
    if bool_decide (a < b) then [[Int a; Int 2]; [Int b; Int 1]]
    else [[Int b; Int 1]; [Int a; Int 2]].
Proof.
  intros Hs H1 H2 H3 Hne Hk. simpl in Hs.
  apply bind_Ok in Hs as (s1 & Hs1 & Hs). apply bind_Ok in Hs as (s2 & Hs2 & Hs).
  apply bind_Ok in Hs as (s3 & Hs3 & [= <-]).
  rewrite (scan_file_histogram_key _ _ _ _ _ Hs3 H3).
  rewrite (scan_file_histogram_key _ _ _ _ _ Hs2 H2).
  rewrite (scan_file_histogram_key _ _ _ _ _ Hs1 H1). simpl.
  rewrite (hist_of_three k1 k2 k3 a b Hne Hk).
  case_bool_decide as Hab.
  - by rewrite sorted_hist_two.
  - rewrite insert_singleton_ne by done.
    by rewrite sorted_hist_two by lia.
Qed.

Lemma StronglySorted_weaken {A} (R S : relation A) (l : list A) :
  (∀ x y, R x y → S x y) → StronglySorted R l → StronglySorted S l.
Proof.
  intros HRS Hl. induction Hl as [|x l Hl IH Hx]; constructor; [done|].
  eapply Forall_impl; [exact Hx|]. intros y. apply HRS.
Qed.

Lemma key_lt_spelled (x y : string * Z * Z) :
  key_lt x y →
  (x.1.1 ≠ y.1.1 ∧ String.le x.1.1 y.1.1) ∨
  x.1.1 = y.1.1 ∧ (x.1.2 < y.1.2 ∨ x.1.2 = y.1.2 ∧ x.2 < y.2).
Proof.
  destruct x as [[c n] k], y as [[c' n'] k']. unfold key_lt, key_le. simpl.
  intros [[Hle|[-> [Hlt|[-> Hle]]]] Hne]; [by left|right; split; auto|].
  right. split; [done|]. right. split; [done|].
  destruct (decide (k = k')) as [->|]; [done|lia].
Qed.

(** C9: a run that ends normally has written the overall histogram under
    the header [focal_mm_35eq,count] with one row per observed 35 mm
    equivalent, holding the value and its count, ascending by value; and the
    per-camera histogram under the header
    [camera,native_mm,focal_mm_35eq,count] with one row per observed triple,
    holding the camera, the native length, the equivalent and the count,
    ascending by the triple (the camera texts compared first, then the native
    lengths, then the equivalents); with three images of which two share the
    rounded value, the overall histogram has exactly two rows, with counts 2
    and 1. *)
Theorem reports_are_sorted w folder fs fs' :
  main w folder fs = (fs', Ok ()) →
  ∃ st,
    scan w empty_counters (images w folder) = Ok st ∧
    fs' !! (folder +:+ "/focal_length_histogram.csv") =
      Some (Csv ([Text "focal_mm_35eq"; Text "count"]
                 :: ((λ r, [Int r.1; Int (Z.of_nat r.2)])
                       <$> sorted_hist (hist st)))) ∧
    fs' !! (folder +:+ "/camera_focal_usage.csv") =
      Some (Csv ([Text "camera"; Text "native_mm"; Text "focal_mm_35eq"; Text "count"]
                 :: ((λ r, [Text r.1.1.1; Int r.1.1.2; Int r.1.2; Int (Z.of_nat r.2)])
                       <$> sorted_camfx (camfx st)))) ∧
    (∀ mm n, (mm, n) ∈ sorted_hist (hist st) ↔ hist st !! mm = Some n) ∧
    NoDup (sorted_hist (hist st)).*1 ∧
    StronglySorted (λ x y, x.1 < y.1) (sorted_hist (hist st)) ∧
    (∀ key n, (key, n) ∈ sorted_camfx (camfx st) ↔ camfx st !! key = Some n) ∧
    NoDup (sorted_camfx (camfx st)).*1 ∧
    StronglySorted (λ x y, key_lt x.1 y.1) (sorted_camfx (camfx st)) ∧
    StronglySorted
      (λ x y,
         (x.1.1.1 ≠ y.1.1.1 ∧ String.le x.1.1.1 y.1.1.1) ∨
         x.1.1.1 = y.1.1.1 ∧
         (x.1.1.2 < y.1.1.2 ∨ x.1.1.2 = y.1.1.2 ∧ x.1.2 < y.1.2))
      (sorted_camfx (camfx st)) ∧
    (∀ f1 f2 f3 k1 k2 k3 a b,
       images w folder = [f1; f2; f3] →
       histogram_key w f1 = Some k1 →
       histogram_key w f2 = Some k2 →
       histogram_key w f3 = Some k3 →
       a ≠ b →
       (k1 = a ∧ k2 = a ∧ k3 = b) ∨ (k1 = a ∧ k2 = b ∧ k3 = a) ∨
       (k1 = b ∧ k2 = a ∧ k3 = a) →
       (λ r, [Int r.1; Int (Z.of_nat r.2)]) <$> sorted_hist (hist st) =
         if bool_decide (a < b) then [[Int a; Int 2]; [Int b; Int 1]]
         else [[Int b; Int 1]; [Int a; Int 2]]).
Proof.
  intros (st & Hs & _ & ->)%main_Ok. exists st.
  destruct (write_reports_lookup folder st fs) as (Hh & Hc & _).
  destruct (sorted_hist_spec (hist st)) as (? & ? & ?).
  destruct (sorted_camfx_spec (camfx st)) as (? & ? & Hsorted).
  split_and!; try done.
  - eapply StronglySorted_weaken; [|exact Hsorted].
    intros x y. apply key_lt_spelled.
  - intros f1 f2 f3 k1 k2 k3 a b Hf. rewrite Hf in Hs.
    by apply rows_of_three.
Qed.

Lemma reports_are_sorted_witness :
  (main demo_world "photos" ∅).1 !! "photos/focal_length_histogram.csv" =
    Some (Csv [[Text "focal_mm_35eq"; Text "count"];
               [Int 26; Int 1]; [Int 34; Int 2]]) ∧
  (main demo_world "photos" ∅).1 !! "photos/camera_focal_usage.csv" =
    Some (Csv [[Text "camera"; Text "native_mm"; Text "focal_mm_35eq"; Text "count"];
               [Text "X100V"; Int 23; Int 34; Int 1];
               [Text "XT5"; Int 23; Int 34; Int 1];
               [Text "iPhone"; Int 4; Int 26; Int 1]]).
Proof.
  destruct (reports_are_sorted demo_world "photos" ∅
              (main demo_world "photos" ∅).1)
    as (st & Hs & Hcsv & Hcam & _ & _ & _ & _ & _ & _ & _ & Hrows).
  - vm_compute. reflexivity.
  - split.
    + rewrite (Hrows "photos/a.jpg" "photos/b.JPG" "photos/trip/c.jpeg"
                 34 26 34 34 26) in Hcsv;
        [exact Hcsv|try (vm_compute; reflexivity)..|lia|auto].
    + vm_compute in Hs. injection Hs as <-.
      etrans; [exact Hcam|]. vm_compute. reflexivity.
Defined.

(** * Further properties of the scan *)

(** The loop body on any counters: it raises what it raises on empty
    counters, and otherwise bumps the two keys of the file. *)
Lemma scan_file_bumps w st f :
  scan_file w st f =
    match scan_file w empty_counters f with
    | Ok _ => Ok (Counters (bump (histogram_key w f) (hist st))
                           (bump (camera_key w f) (camfx st)))
    | Raise e => Raise e
    end.
Proof.
  unfold scan_file, histogram_key, camera_key, focal_35.
  destruct (exif_vals w f) as [meta|]; [simpl|done].
  destruct (to_float (get meta "FL")) as [native|]; [simpl|done].
  destruct (ff_equiv meta native) as [[ff|]|] eqn:Hff; simpl; [| |done].
  - destruct (Float.truthy ff) eqn:Ht; simpl.
    + destruct (Float.round ff) as [k|] eqn:Hk; [simpl|done].
      destruct native as [x|]; simpl; [|done]. rewrite Hff.
      destruct (Float.truthy x); simpl; [|done]. rewrite Ht, Hk.
      by destruct (Float.round x).
    + destruct native as [x|]; simpl; [|done]. rewrite Hff, Ht.
      by rewrite andb_false_r.
  - destruct native as [x|]; simpl; [|done]. by rewrite Hff.
Qed.

Lemma scan_file_readable w st f :
  readable w f = true →
  scan_file w st f =
    Ok (Counters (bump (histogram_key w f) (hist st))
                 (bump (camera_key w f) (camfx st))).
Proof.
  intros Hr. rewrite scan_file_bumps. unfold readable in Hr.
  by destruct (scan_file w empty_counters f).
Qed.

Lemma scan_file_Ok_readable w st f st' :
  scan_file w st f = Ok st' → readable w f = true.
Proof.
  rewrite scan_file_bumps. unfold readable.
  by destruct (scan_file w empty_counters f).
Qed.

Lemma incr_comm {K : Type} `{Countable K} (a b : K) (c : gmap K nat) :
  incr a (incr b c) = incr b (incr a c).
Proof.
  apply map_eq. intros i. unfold incr, count.
  destruct (decide (a = b)) as [->|Hab]; [done|].
  destruct (decide (i = a)); destruct (decide (i = b)); by simplify_map_eq.
Qed.

Lemma bump_comm {K : Type} `{Countable K} (a b : option K) (c : gmap K nat) :
  bump a (bump b c) = bump b (bump a c).
Proof. destruct a, b; simpl; [apply incr_comm|done..]. Qed.

Lemma count_bump {K : Type} `{Countable K} (key : option K) (c : gmap K nat) k :
  count (bump key c) k = ((if decide (key = Some k) then 1 else 0) + count c k)%nat.
Proof.
  destruct key as [k'|]; simpl.
  - case_decide as Hk.
    + injection Hk as ->. by rewrite count_incr_eq.
    + rewrite count_incr_ne; [done|]. by intros ->.
  - by destruct (decide (None = Some k)).
Qed.

Lemma positive_bump {K : Type} `{Countable K} (key : option K) (c : gmap K nat) :
  positive c → positive (bump key c).
Proof. destruct key; simpl; [apply positive_incr|done]. Qed.

(** a counter with positive counts is known by its counts *)
Lemma positive_ext {K : Type} `{Countable K} (c d : gmap K nat) :
  positive c → positive d → (∀ k, count c k = count d k) → c = d.
Proof.
  intros Hc Hd Hcount. apply map_eq. intros k. specialize (Hcount k).
  unfold count in Hcount.
  destruct (c !! k) as [m|] eqn:Hm; destruct (d !! k) as [n|] eqn:Hn;
    simpl in Hcount; [by subst| | |done].
  - apply Hc in Hm. simpl in Hm. lia.
  - apply Hd in Hn. simpl in Hn. lia.
Qed.

Lemma scan_readable w st0 files st :
  scan w st0 files = Ok st → Forall (λ f, readable w f = true) files.
Proof.
  revert st0. induction files as [|f files IH]; intros st0 Hs; [constructor|].
  simpl in Hs. apply bind_Ok in Hs as (st1 & Hf & Hs). constructor.
  - by eapply scan_file_Ok_readable.
  - by eapply IH.
Qed.

Lemma scan_of_readable w st0 files :
  Forall (λ f, readable w f = true) files → ∃ st, scan w st0 files = Ok st.
Proof.
  revert st0. induction files as [|f files IH]; intros st0 Hall; simpl; [eauto|].
  apply Forall_cons in Hall as [Hf Hall].
  rewrite (scan_file_readable w st0 f Hf). simpl. by apply IH.
Qed.

Lemma scan_counts w st0 files st :
  scan w st0 files = Ok st →
  (∀ k, count (hist st) k =
        (count (hist st0) k +
         length (filter (λ f, histogram_key w f = Some k) files))%nat) ∧
  (∀ key, count (camfx st) key =
        (count (camfx st0) key +
         length (filter (λ f, camera_key w f = Some key) files))%nat).
Proof.
  revert st0. induction files as [|f files IH]; intros st0 Hs; simpl in Hs.
  - injection Hs as <-. split; intros; simpl; lia.
  - apply bind_Ok in Hs as (st1 & Hf & Hs).
    rewrite (scan_file_readable w st0 f) in Hf
      by (by eapply scan_file_Ok_readable).
    injection Hf as <-. destruct (IH _ Hs) as [IHh IHc]. simpl in *.
    split.
    + intros k. rewrite IHh, count_bump, filter_cons.
      repeat case_decide; simpl; lia.
    + intros key. rewrite IHc, count_bump, filter_cons.
      repeat case_decide; simpl; lia.
Qed.

Lemma scan_positive w st0 files st :
  scan w st0 files = Ok st →
  positive (hist st0) → positive (camfx st0) →
  positive (hist st) ∧ positive (camfx st).
Proof.
  revert st0. induction files as [|f files IH]; intros st0 Hs Hh Hc; simpl in Hs.
  - by injection Hs as <-.
  - apply bind_Ok in Hs as (st1 & Hf & Hs).
    rewrite (scan_file_readable w st0 f) in Hf
      by (by eapply scan_file_Ok_readable).
    injection Hf as <-. apply (IH _ Hs); simpl; by apply positive_bump.
Qed.

Lemma filter_length_0 {A} (P : A → Prop) `{∀ x, Decision (P x)} (l : list A) :
  length (filter P l) = 0%nat ↔ ∀ x, x ∈ l → ¬ P x.
Proof.
  induction l as [|a l IH].
  - split; [|done]. intros _ x Hx. by apply elem_of_nil in Hx.
  - rewrite filter_cons. case_decide as Ha; simpl.
    + split; [done|]. intros Hall. destruct (Hall a); [apply list_elem_of_here|done].
    + rewrite IH. split.
      * intros Hall x [->|Hx]%elem_of_cons; auto.
      * intros Hall x Hx. apply Hall. by apply list_elem_of_further.
Qed.

(** X1: after a completed scan the count under every key of the overall
    histogram is the number of scanned files whose rounded 35 mm equivalent
    is that key, and the count under every triple of the per-camera
    histogram is the number of scanned files with that camera, rounded
    native length and rounded equivalent; a key no file produced is not in
    the histogram. *)
Theorem counts_are_per_key w files st :
  scan w empty_counters files = Ok st →
  (∀ k, count (hist st) k =
        length (filter (λ f, histogram_key w f = Some k) files)) ∧
  (∀ key, count (camfx st) key =
        length (filter (λ f, camera_key w f = Some key) files)) ∧
  (∀ k, hist st !! k = None ↔ ∀ f, f ∈ files → histogram_key w f ≠ Some k) ∧
  (∀ key, camfx st !! key = None ↔ ∀ f, f ∈ files → camera_key w f ≠ Some key).
Proof.
  intros Hs. destruct (scan_counts _ _ _ _ Hs) as [Hh Hc].
  destruct (scan_positive _ _ _ _ Hs) as [Hph Hpc]; [apply positive_empty..|].
  assert (∀ {K} `{Countable K} (c : gmap K nat) k,
            positive c → c !! k = None ↔ count c k = 0%nat) as Hnone.
  { intros K ? ? c k Hp. unfold count. destruct (c !! k) as [n|] eqn:Hn; simpl.
    - apply Hp in Hn. simpl in Hn. split; [done|lia].
    - done. }
  split_and!.
  - intros k. by rewrite Hh.
  - intros key. by rewrite Hc.
  - intros k. rewrite (Hnone _ _ _ _ _ Hph), Hh. simpl. apply filter_length_0.
  - intros key. rewrite (Hnone _ _ _ _ _ Hpc), Hc. simpl. apply filter_length_0.
Qed.

Lemma counts_are_per_key_witness :
  ∃ st, scan demo_world empty_counters demo_files = Ok st ∧
        count (hist st) 34 = 2%nat ∧ count (hist st) 26 = 1%nat ∧
        count (camfx st) ("XT5", 23, 34) = 1%nat ∧ hist st !! 35 = None.
Proof.
  eexists. split; [vm_compute; reflexivity|].
  destruct (counts_are_per_key demo_world demo_files _ eq_refl)
    as (Hh & Hc & Hn & _).
  split_and!.
  - rewrite Hh. vm_compute. reflexivity.
  - rewrite Hh. vm_compute. reflexivity.
  - rewrite Hc. vm_compute. reflexivity.
  - apply Hn. intros f Hf.
    repeat (apply elem_of_cons in Hf as [->|Hf]; [vm_compute; discriminate|]).
    by apply elem_of_nil in Hf.
Defined.

Lemma counters_eq (st st' : counters) :
  hist st = hist st' → camfx st = camfx st' → st = st'.
Proof. destruct st, st'. simpl. by intros -> ->. Qed.

Lemma scan_permutation w (files files' : list string) st :
  files ≡ₚ files' →
  scan w empty_counters files = Ok st →
  scan w empty_counters files' = Ok st.
Proof.
  intros Hperm Hs.
  assert (Forall (λ f, readable w f = true) files') as Hall.
  { rewrite <-Hperm. by eapply scan_readable. }
  destruct (scan_of_readable w empty_counters files' Hall) as [st' Hs'].
  rewrite Hs'. f_equal.
  destruct (scan_counts _ _ _ _ Hs) as [Hh Hc].
  destruct (scan_counts _ _ _ _ Hs') as [Hh' Hc'].
  destruct (scan_positive _ _ _ _ Hs) as [Hph Hpc]; [apply positive_empty..|].
  destruct (scan_positive _ _ _ _ Hs') as [Hph' Hpc']; [apply positive_empty..|].
  apply counters_eq; apply positive_ext; try done.
  - intros k. rewrite Hh, Hh'. by rewrite Hperm.
  - intros key. rewrite Hc, Hc'. by rewrite Hperm.
Qed.

(** X2: the order in which the folder lists its files does not matter: if
    the scan of the files in one order completes, the scan in any other
    order completes with the same two histograms; and if it raises in one
    order it raises in every order. *)
Theorem scan_order_irrelevant w (files files' : list string) :
  files ≡ₚ files' →
  (∀ st, scan w empty_counters files = Ok st →
         scan w empty_counters files' = Ok st) ∧
  ((∃ e, scan w empty_counters files = Raise e) →
   ∃ e', scan w empty_counters files' = Raise e').
Proof.
  intros Hperm. split.
  - intros st. by apply scan_permutation.
  - intros [e He]. destruct (scan w empty_counters files') as [st'|e'] eqn:Hs'; [|eauto].
    apply (scan_permutation w files' files) in Hs'; [|done]. congruence.
Qed.

Lemma scan_order_irrelevant_witness :
  scan demo_world empty_counters (reverse demo_files) =
  scan demo_world empty_counters demo_files.
Proof.
  destruct (scan_order_irrelevant demo_world demo_files (reverse demo_files))
    as [Hsame _].
  - by rewrite reverse_Permutation.
  - destruct (scan demo_world empty_counters demo_files) as [st|e] eqn:Hs.
    + by apply Hsame.
    + vm_compute in Hs. discriminate.
Defined.

(** ** What the loop body can raise *)

(** after the extractor returned, the loop body raises what [to_float] or
    [round] raise *)
Lemma scan_file_exn w st f meta e :
  exif_vals w f = Ok meta → scan_file w st f = Raise e →
  e = ValueError ∨ e = OverflowError.
Proof.
  unfold scan_file. intros He Hs. rewrite He in Hs. simpl in Hs.
  destruct (to_float (get meta "FL")) as [native|e0] eqn:Hn; simpl in Hs.
  2:{ injection Hs as ->. apply to_float_exn in Hn. auto. }
  destruct (ff_equiv meta native) as [ff_mm|e0] eqn:Hff; simpl in Hs.
  2:{ injection Hs as ->. unfold ff_equiv in Hff.
      destruct (first_usable meta ["FL35Comp"; "FL35"]) as [found|e1] eqn:Hfu;
        simpl in Hff.
      - destruct found; [done|]. unfold crop_rule in Hff.
        destruct native as [x|]; [|done].
        apply to_float_Some in Hn as [t Ht].
        destruct (exif_vals_make w f meta t He Ht) as [make Hm].
        unfold get_or_empty in Hff. rewrite Hm in Hff. simpl in Hff.
        by destruct (Str.contains "FUJIFILM" (Str.upper make)).
      - injection Hff as <-. apply first_usable_exn in Hfu. auto. }
  assert (∀ x, Float.round x = Raise e → e = ValueError ∨ e = OverflowError)
    as Hround by (intros x; apply round_exn).
  destruct ff_mm as [ff|]; simpl in Hs.
  - destruct (Float.truthy ff); simpl in Hs.
    + destruct (Float.round ff) as [k|e1] eqn:Hk; simpl in Hs.
      * destruct native as [x|]; simpl in Hs; [|done].
        destruct (Float.truthy x); simpl in Hs; [|done].
        destruct (Float.round x) as [n|e1] eqn:Hx; simpl in Hs; [done|].
        injection Hs as ->. by eapply Hround.
      * injection Hs as ->. by eapply Hround.
    + destruct native as [x|]; simpl in Hs; [|done].
      by rewrite andb_false_r in Hs.
  - by destruct native.
Qed.

(** X3: the [.upper()] of the normalizer never meets a missing manufacturer
    in a record the extractor built.  Such a record that has a focal length
    line has a manufacturer line, since the lines fill the keys in order; so
    the normalizer raises no [AttributeError] on it, whatever the native
    focal length read from it, and neither does the loop body. *)
Theorem no_attribute_error_in_the_loop w f meta :
  exif_vals w f = Ok meta →
  (∀ t, get meta "FL" = Some t → ∃ make, get_or_empty meta "Make" = Some make) ∧
  (∀ native, to_float (get meta "FL") = Ok native →
             ff_equiv meta native ≠ Raise AttributeError) ∧
  (∀ st, scan_file w st f ≠ Raise AttributeError).
Proof.
  intros He. split_and!.
  - intros t Ht. destruct (exif_vals_make w f meta t He Ht) as [make Hm].
    exists make. unfold get_or_empty. by rewrite Hm.
  - intros native Hn Hff. unfold ff_equiv in Hff.
    destruct (first_usable meta ["FL35Comp"; "FL35"]) as [[mm|]|e] eqn:Hfu;
      simpl in Hff; [done| |].
    + unfold crop_rule in Hff. destruct native as [x|]; [|done].
      apply to_float_Some in Hn as [t Ht].
      destruct (exif_vals_make w f meta t He Ht) as [make Hm].
      unfold get_or_empty in Hff. rewrite Hm in Hff. simpl in Hff.
      by destruct (Str.contains "FUJIFILM" (Str.upper make)).
    + injection Hff as ->. by apply first_usable_exn in Hfu.
  - intros st Hs. by destruct (scan_file_exn w st f meta _ He Hs).
Qed.

Lemma no_attribute_error_in_the_loop_witness :
  (∃ make, get_or_empty
             (record [Some "Fujifilm"; Some "X100V"; Some "23.0 mm"; None; None])
             "Make" = Some make) ∧
  scan_file demo_world empty_counters "photos/a.jpg" ≠ Raise AttributeError.
Proof.
  destruct (no_attribute_error_in_the_loop demo_world "photos/a.jpg"
              (record [Some "Fujifilm"; Some "X100V"; Some "23.0 mm"; None; None]))
    as (Hmake & _ & Hscan).
  - vm_compute. reflexivity.
  - split; [|apply Hscan]. apply (Hmake "23.0 mm"). vm_compute. reflexivity.
Defined.

(** * Further properties of the script *)

Lemma main_cases w folder fs :
  (∃ e, main w folder fs = (fs, Raise e)) ∨
  (∃ st, scan w empty_counters (images w folder) = Ok st ∧ hist st ≠ ∅ ∧
         main w folder fs = (write_reports folder st fs, Ok ())).
Proof.
  unfold main. destruct (is_dir w folder); simpl; [|eauto].
  destruct (images w folder) as [|f files]; [eauto|].
  destruct (scan w empty_counters (f :: files)) as [st|e]; [|eauto].
  case_bool_decide; [eauto|]. right. eauto.
Qed.

(** X5: what a normal end tells.  When the run ends with exit status 0 the
    folder is a directory, the loop body went through on every image, and at
    least one image has a histogram key. *)
Theorem normal_end_needs_data w folder fs :
  exit_status (main w folder fs).2 = 0 →
  is_dir w folder = true ∧
  Forall (λ f, readable w f = true) (images w folder) ∧
  ∃ f, f ∈ images w folder ∧ is_Some (histogram_key w f).
Proof.
  intros Hstatus.
  destruct (main_cases w folder fs) as [[e Hm]|(st & Hs & Hne & Hm)];
    rewrite Hm in Hstatus; simpl in Hstatus; [done|].
  split_and!.
  - unfold main in Hm. by destruct (is_dir w folder).
  - by eapply scan_readable.
  - apply map_choose in Hne as (k & n & Hk).
    destruct (scan_counts _ _ _ _ Hs) as [Hh _]. specialize (Hh k).
    destruct (scan_positive _ _ _ _ Hs) as [Hph _]; [apply positive_empty..|].
    apply Hph in Hk as Hn. unfold count in Hh. rewrite Hk in Hh.
    change (hist empty_counters) with (∅ : gmap Z nat) in Hh.
    rewrite lookup_empty in Hh.
    remember (filter (λ f, histogram_key w f = Some k) (images w folder))
      as l eqn:Hfil.
    destruct l as [|f l]; [simpl in Hh, Hn; lia|].
    assert (f ∈ filter (λ f, histogram_key w f = Some k) (images w folder))
      as [Hkey Hin]%list_elem_of_filter by (rewrite <-Hfil; apply list_elem_of_here).
    exists f. by rewrite Hkey.
Qed.

Lemma normal_end_needs_data_witness :
  is_dir demo_world "photos" = true ∧
  Forall (λ f, readable demo_world f = true) (images demo_world "photos") ∧
  ∃ f, f ∈ images demo_world "photos" ∧ is_Some (histogram_key demo_world f).
Proof. apply (normal_end_needs_data demo_world "photos" ∅). vm_compute. reflexivity. Defined.

(** * Further properties of the parsing *)

Lemma num_run_app g rest :
  num_run g = g → num_run rest = EmptyString → num_run (g +:+ rest) = g.
Proof.
  intros Hg Hrest. induction g as [|c g IH]; simpl in *; [done|].
  destruct (is_digit c || is_dot c); [|done].
  injection Hg as Hg. by rewrite IH.
Qed.

(** X8: what follows the leading run of digits and dots is ignored: a
    number text followed by any text that does not start with a digit or a
    dot (a unit such as [mm], a space) parses as the number text alone. *)
Theorem to_float_ignores_unit g rest :
  num_run g = g → num_run rest = EmptyString →
  to_float (Some (g +:+ rest)) = to_float (Some g).
Proof.
  intros Hg Hrest. unfold to_float, num_match. simpl.
  by rewrite (num_run_app g rest Hg Hrest), Hg.
Qed.

Lemma to_float_ignores_unit_witness :
  to_float (Some "23.5 mm (35 mm equivalent: 35.0 mm)") = to_float (Some "23.5").
Proof.
  apply (to_float_ignores_unit "23.5" " mm (35 mm equivalent: 35.0 mm)");
    reflexivity.
Defined.

(** ** The extractor on any output *)

Lemma record_dom (values : list (option string)) key :
  (5 ≤ length values)%nat → is_Some (record values !! key) ↔ key ∈ keys.
Proof.
  intros Hlen.
  destruct values as [|v0 [|v1 [|v2 [|v3 [|v4 rest]]]]]; simpl in Hlen; try lia.
  unfold record, dict, keys. simpl. rewrite !lookup_insert_is_Some, lookup_empty.
  rewrite !elem_of_cons, elem_of_nil. split.
  - intros [?|[_ [?|[_ [?|[_ [?|[_ [?|[_ [? ?]]]]]]]]]]]; auto 10. done.
  - intros [->|[->|[->|[->|[->|[]]]]]];
      repeat (first [by left|right; split; [done|]]).
Qed.

(** X9: with return code 0 the record always holds exactly the five keys,
    whatever the number of lines of the output; the key at position [i]
    holds line [i] (or [None]), so lines beyond the fifth are ignored. *)
Theorem record_has_five_keys w f meta :
  exif_vals w f = Ok meta →
  ∃ out,
    exiftool w f = Exited 0 out ∧
    (∀ key, is_Some (meta !! key) ↔ key ∈ keys) ∧
    (∀ i key, keys !! i = Some key →
       meta !! key = Some (Str.splitlines (Str.strip out) !! i)).
Proof.
  intros He. destruct (exif_vals_Ok w f meta He) as (out & Ht & Hmeta).
  exists out. split_and!; [done| |].
  - intros key. rewrite Hmeta. apply record_dom.
    rewrite length_app, length_replicate. lia.
  - intros i key Hk.
    destruct (exif_vals_field w f meta i key He Hk) as (out' & Ht' & Hget).
    rewrite Ht in Ht'. by injection Ht' as <-.
Qed.

Lemma record_has_five_keys_witness :
  ∃ meta, exif_vals demo_world "photos/b.JPG" = Ok meta ∧
          meta !! "FL35Comp" = Some (Some "26.0 mm") ∧
          meta !! "Lens" = None.
Proof.
  destruct (exif_vals demo_world "photos/b.JPG") as [meta|e] eqn:He;
    [|vm_compute in He; discriminate].
  exists meta. split; [done|].
  destruct (record_has_five_keys demo_world "photos/b.JPG" meta He)
    as (out & Ht & Hdom & Hget).
  split.
  - rewrite (Hget 4%nat "FL35Comp" eq_refl).
    vm_compute in Ht. injection Ht as <-. vm_compute. reflexivity.
  - apply eq_None_not_Some. rewrite Hdom. unfold keys.
    rewrite !elem_of_cons, elem_of_nil. intros [?|[?|[?|[?|[?|[]]]]]]; discriminate.
Defined.

Lemma blank_cons c ws : blank (String c ws) ↔ Str.is_space c = true ∧ blank ws.
Proof.
  unfold blank. simpl. destruct (Str.is_space c); [|split; [done|by intros [? _]]].
  split; [done|by intros [_ ?]].
Qed.

Lemma lstrip_app_blank ws s : blank ws → Str.lstrip (ws +:+ s) = Str.lstrip s.
Proof.
  induction ws as [|c ws IH]; [done|].
  intros [Hc Hws]%blank_cons. simpl. rewrite Hc. by apply IH.
Qed.

Lemma rstrip_blank ws : blank ws → Str.rstrip ws = EmptyString.
Proof.
  induction ws as [|c ws IH]; [done|].
  intros [Hc Hws]%blank_cons. simpl. by rewrite IH, Hc.
Qed.

Lemma rstrip_app_blank s ws : blank ws → Str.rstrip (s +:+ ws) = Str.rstrip s.
Proof.
  intros Hws. induction s as [|c s IH]; simpl.
  - by apply rstrip_blank.
  - by rewrite IH.
Qed.

Lemma strip_app_blank s ws : blank ws → Str.strip (s +:+ ws) = Str.strip s.
Proof.
  intros Hws. unfold Str.strip. induction s as [|c s IH]; simpl.
  - change (EmptyString +:+ ws) with ws. unfold blank in Hws. by rewrite Hws.
  - destruct (Str.is_space c); [done|].
    change (String c (s +:+ ws)) with (String c s +:+ ws).
    by apply rstrip_app_blank.
Qed.

Lemma strip_padded ws1 s ws2 :
  blank ws1 → blank ws2 → Str.strip (ws1 +:+ (s +:+ ws2)) = Str.strip s.
Proof.
  intros H1 H2. unfold Str.strip. rewrite lstrip_app_blank by done.
  by apply strip_app_blank.
Qed.

(** X10: whitespace and blank lines before and after the tool's output are
    dropped before the lines are counted, so they shift no field: the output
    padded with whitespace on both sides gives the same record. *)
Theorem blank_padding_is_ignored w w' f f' out ws1 ws2 :
  blank ws1 → blank ws2 →
  exiftool w f = Exited 0 out →
  exiftool w' f' = Exited 0 (ws1 +:+ (out +:+ ws2)) →
  exif_vals w' f' = exif_vals w f.
Proof.
  intros H1 H2 Ht Ht'. unfold exif_vals. rewrite Ht, Ht'. simpl.
  by rewrite strip_padded.
Qed.

Lemma blank_padding_is_ignored_witness :
  exif_vals
    (World (λ _, true) (λ _, [])
       (λ _, Exited 0 (nl +:+ " " +:+ (output ["Canon"; "EOS 5D"] +:+ (nl +:+ nl)))))
    "x.jpg"
  = exif_vals
      (World (λ _, true) (λ _, []) (λ _, Exited 0 (output ["Canon"; "EOS 5D"])))
      "x.jpg".
Proof.
  apply (blank_padding_is_ignored _ _ _ _ (output ["Canon"; "EOS 5D"])
           (nl +:+ " ") (nl +:+ nl)); reflexivity.
Defined.

(** * Further properties of the camera identifier *)

Lemma upper_empty s : Str.upper s = EmptyString ↔ s = EmptyString.
Proof. by destruct s. Qed.

Lemma nonempty_true s : nonempty s = true ↔ s ≠ EmptyString.
Proof.
  unfold nonempty. destruct (String.eqb_spec s EmptyString); simpl; split; congruence.
Qed.

(** X11: the label is the empty text in one case only: the manufacturer
    holds the FUJIFILM marker and not the APPLE marker, and the model is
    empty or missing.  In every other case the label has at least one
    character. *)
Theorem camera_label_empty_iff meta :
  camera meta = EmptyString ↔
  Str.contains "APPLE" (Str.upper (default EmptyString (get meta "Make"))) = false ∧
  Str.contains "FUJIFILM" (Str.upper (default EmptyString (get meta "Make"))) = true ∧
  default EmptyString (get meta "Model") = EmptyString.
Proof.
  rewrite camera_unfold. simpl.
  set (make := Str.upper (default EmptyString (get meta "Make"))).
  set (model := default EmptyString (get meta "Model")).
  destruct (Str.contains "APPLE" make); [split; [done|by intros [? _]]|].
  destruct (Str.contains "FUJIFILM" make).
  - destruct (Str.contains "X-T5" (Str.upper model)) eqn:Hx.
    + split; [done|]. intros (_ & _ & Hm). rewrite Hm in Hx. by vm_compute in Hx.
    + split; [by intros ->|by intros (_ & _ & ?)].
  - destruct (nonempty model) eqn:Hm.
    + apply nonempty_true in Hm. split; [done|by intros (_ & ? & _)].
    + destruct (nonempty make) eqn:Hk.
      * apply nonempty_true in Hk. split; [done|by intros (_ & ? & _)].
      * split; [done|by intros (_ & ? & _)].
Qed.

(** X12: in the last rule the manufacturer comes back in upper case: for a
    record whose manufacturer holds neither marker and whose model is empty
    or missing, the label is the upper-cased manufacturer text when that text
    is ASCII, and [Unknown] when the manufacturer is empty or missing too. *)
Theorem camera_falls_back_on_upper_make meta :
  Str.contains "APPLE" (Str.upper (default EmptyString (get meta "Make"))) = false →
  Str.contains "FUJIFILM" (Str.upper (default EmptyString (get meta "Make"))) = false →
  default EmptyString (get meta "Model") = EmptyString →
  (∀ make, get meta "Make" = Some make → Str.isascii make = true →
           make ≠ EmptyString → camera meta = Str.upper make) ∧
  (default EmptyString (get meta "Make") = EmptyString → camera meta = "Unknown").
Proof.
  intros Ha Hf Hm. rewrite camera_unfold. simpl. rewrite Ha, Hf, Hm. simpl.
  split.
  - intros make Hmk _ Hne. rewrite Hmk. simpl.
    assert (nonempty (Str.upper make) = true) as ->; [|done].
    apply nonempty_true. by rewrite upper_empty.
  - by intros ->.
Qed.

Lemma camera_falls_back_on_upper_make_witness :
  camera (record [Some "Canon"; None]) = "CANON" ∧
  camera (record [None; None]) = "Unknown".
Proof.
  split.
  - destruct (camera_falls_back_on_upper_make (record [Some "Canon"; None]))
      as [Hmake _]; [vm_compute; reflexivity..|].
    by apply (Hmake "Canon").
  - destruct (camera_falls_back_on_upper_make (record [None; None]))
      as [_ Hnone]; [vm_compute; reflexivity..|].
    by apply Hnone.
Defined.

(** * Further properties of the file selection *)

Lemma contains_slash_cons c s :
  Str.contains "/" (String c s) = (Str.code c =? 47)%N || Str.contains "/" s.
Proof. destruct c as [[] [] [] [] [] [] [] []]; destruct s; reflexivity. Qed.

Section case_change.
Variable f : ascii → ascii.
Variable F : string → string.
Hypothesis F_nil : F EmptyString = EmptyString.
Hypothesis F_cons : ∀ c s, F (String c s) = String (f c) (F s).
Hypothesis f_slash : ∀ c, (Str.code (f c) =? 47)%N = (Str.code c =? 47)%N.
Hypothesis f_dot : ∀ c, is_dot (f c) = is_dot c.

Lemma contains_slash_case p : Str.contains "/" (F p) = Str.contains "/" p.
Proof.
  induction p as [|c p IH]; [by rewrite F_nil|].
  by rewrite F_cons, !contains_slash_cons, f_slash, IH.
Qed.

Lemma name_case p : name (F p) = F (name p).
Proof.
  induction p as [|c p IH]; [by rewrite F_nil|].
  rewrite F_cons. simpl. rewrite contains_slash_case, f_slash, IH.
  destruct (Str.contains "/" p); [done|].
  destruct (Str.code c =? 47)%N; [done|]. by rewrite F_cons.
Qed.

Lemma from_last_dot_case n : from_last_dot (F n) = F <$> from_last_dot n.
Proof.
  induction n as [|c n IH]; [by rewrite F_nil|].
  rewrite F_cons. simpl. rewrite IH, f_dot.
  destruct (from_last_dot n); simpl; [done|].
  destruct (is_dot c); simpl; [|done]. by rewrite F_cons.
Qed.

Lemma suffix_case p : suffix (F p) = F (suffix p).
Proof.
  unfold suffix. rewrite name_case.
  destruct (name p) as [|c n]; [by rewrite !F_nil|].
  rewrite F_cons, from_last_dot_case.
  destruct (from_last_dot n) as [[|d [|c' t]]|]; simpl;
    rewrite ?F_cons, ?F_nil; done.
Qed.
End case_change.

Lemma upper_char_facts c :
  (Str.code (Str.upper_char c) =? 47)%N = (Str.code c =? 47)%N ∧
  is_dot (Str.upper_char c) = is_dot c ∧
  Str.lower_char (Str.upper_char c) = Str.lower_char c.
Proof. destruct c as [[] [] [] [] [] [] [] []]; by vm_compute. Qed.

Lemma lower_char_facts c :
  (Str.code (Str.lower_char c) =? 47)%N = (Str.code c =? 47)%N ∧
  is_dot (Str.lower_char c) = is_dot c ∧
  Str.lower_char (Str.lower_char c) = Str.lower_char c.
Proof. destruct c as [[] [] [] [] [] [] [] []]; by vm_compute. Qed.

Lemma lower_upper s : Str.lower (Str.upper s) = Str.lower s.
Proof.
  induction s as [|c s IH]; [done|]. simpl.
  by rewrite IH, (proj2 (proj2 (upper_char_facts c))).
Qed.

Lemma lower_lower s : Str.lower (Str.lower s) = Str.lower s.
Proof.
  induction s as [|c s IH]; [done|]. simpl.
  by rewrite IH, (proj2 (proj2 (lower_char_facts c))).
Qed.

(** X13: whether an ASCII path is taken as an image does not depend on the
    case of its letters: the upper-cased and the lower-cased path are
    supported exactly when the path is. *)
Theorem supported_ignores_case p :
  Str.isascii p = true →
  supported (Str.upper p) = supported p ∧
  supported (Str.lower p) = supported p.
Proof.
  intros _. unfold supported. split.
  - rewrite (suffix_case Str.upper_char Str.upper); try done.
    + by rewrite lower_upper.
    + intros c. apply upper_char_facts.
    + intros c. apply upper_char_facts.
  - rewrite (suffix_case Str.lower_char Str.lower); try done.
    + by rewrite lower_lower.
    + intros c. apply lower_char_facts.
    + intros c. apply lower_char_facts.
Qed.

Lemma supported_ignores_case_witness :
  supported (Str.upper "photos/b.JPG") = supported "photos/b.JPG" ∧
  supported (Str.lower "photos/b.JPG") = supported "photos/b.JPG".
Proof. apply (supported_ignores_case "photos/b.JPG"). reflexivity. Defined.

Lemma from_last_dot_split n t :
  from_last_dot n = Some t → ∃ pre, n = pre +:+ t ∧ is_dot <$> String.get 0 t = Some true.
Proof.
  revert t. induction n as [|c n IH]; intros t; simpl; [done|].
  destruct (from_last_dot n) as [t'|].
  - intros [= <-]. destruct (IH t' eq_refl) as (pre & -> & Hdot).
    by exists (String c pre).
  - destruct (is_dot c) eqn:Hc; [|done]. intros [= <-].
    exists EmptyString. simpl. by rewrite Hc.
Qed.

Lemma empty_not_ext : Str.lower EmptyString ∉ IMG_EXTS.
Proof.
  unfold IMG_EXTS. rewrite !not_elem_of_cons. split_and!; [done..|].
  apply not_elem_of_nil.
Qed.

(** X14: a path is taken as an image only if its final component is a
    non-empty stem followed by an extension that starts with a dot and is,
    in lower case, one of the four supported ones; a name that is an
    extension only, like a hidden [.jpg], is not taken. *)
Theorem supported_needs_stem p :
  supported p = true →
  ∃ stem ext,
    name p = stem +:+ ext ∧ stem ≠ EmptyString ∧
    Str.lower ext ∈ IMG_EXTS ∧ suffix p = ext.
Proof.
  unfold supported, suffix. intros Hs%bool_decide_eq_true.
  destruct (name p) as [|c n]; [by apply empty_not_ext in Hs|].
  destruct (from_last_dot n) as [t|] eqn:Ht; [|by apply empty_not_ext in Hs].
  destruct (from_last_dot_split n t Ht) as (pre & -> & _).
  destruct t as [|d [|c' t]]; [by apply empty_not_ext in Hs..|].
  exists (String c pre), (String d (String c' t)). by split_and!.
Qed.

Lemma supported_needs_stem_witness :
  ∃ stem ext, name "photos/trip/c.jpeg" = stem +:+ ext ∧ stem ≠ EmptyString ∧
              Str.lower ext ∈ IMG_EXTS ∧ suffix "photos/trip/c.jpeg" = ext.
Proof. apply (supported_needs_stem "photos/trip/c.jpeg"). reflexivity. Defined.

(** * The progress line *)

Lemma digits_fuel fuel fuel' n :
  (n < fuel)%nat → (n < fuel')%nat → Out.digits fuel n = Out.digits fuel' n.
Proof.
  revert fuel' n. induction fuel as [|fuel IH]; intros fuel' n Hf Hf'; [lia|].
  destruct fuel' as [|fuel']; [lia|]. cbn [Out.digits].
  destruct (Nat.ltb_spec n 10) as [Hn|Hn]; [done|].
  rewrite (IH fuel' (n / 10)%nat); [done| |].
  - pose proof (Nat.div_lt n 10). lia.
  - pose proof (Nat.div_lt n 10). lia.
Qed.

Lemma digits_unfold n :
  Out.digits (S n) n =
    if (n <? 10)%nat then [(48 + N.of_nat n)%N]
    else (Out.digits (S (n / 10)) (n / 10) ++ [(48 + N.of_nat (n mod 10))%N])%list.
Proof.
  cbn [Out.digits]. destruct (Nat.ltb_spec n 10) as [Hn|Hn]; [done|].
  rewrite (digits_fuel n (S (n / 10)) (n / 10)); [done| |lia].
  pose proof (Nat.div_lt n 10). lia.
Qed.

Lemma digits_length_pos n : (1 ≤ length (Out.digits (S n) n))%nat.
Proof.
  rewrite digits_unfold. destruct (n <? 10)%nat; [cbn [length]; lia|].
  rewrite length_app. cbn [length]. lia.
Qed.

Lemma digits_length_mono n m :
  (n ≤ m)%nat →
  (length (Out.digits (S n) n) ≤ length (Out.digits (S m) m))%nat.
Proof.
  revert n. induction m as [m IH] using lt_wf_ind. intros n Hnm.
  rewrite (digits_unfold n), (digits_unfold m).
  destruct (Nat.ltb_spec n 10) as [Hn|Hn]; destruct (Nat.ltb_spec m 10) as [Hm|Hm].
  - done.
  - rewrite length_app. cbn [length]. lia.
  - lia.
  - rewrite !length_app. cbn [length].
    assert (length (Out.digits (S (n / 10)) (n / 10))
            ≤ length (Out.digits (S (m / 10)) (m / 10)))%nat; [|lia].
    apply IH.
    + pose proof (Nat.div_lt m 10). lia.
    + apply Nat.Div0.div_le_mono. lia.
Qed.

Lemma str_length_mono (i total : Z) :
  0 ≤ i ≤ total → (length (Out.str i) ≤ length (Out.str total))%nat.
Proof.
  intros Hi. unfold Out.str.
  destruct (Z.ltb_spec i 0); [lia|]. destruct (Z.ltb_spec total 0); [lia|].
  apply digits_length_mono. lia.
Qed.

Lemma ljust_length width s : length (Out.ljust width s) = (width `max` length s)%nat.
Proof. unfold Out.ljust. rewrite length_app, length_replicate. lia. Qed.

Lemma rjust_length width s : length (Out.rjust width s) = (width `max` length s)%nat.
Proof. unfold Out.rjust. rewrite length_app, length_replicate. lia. Qed.

Lemma digits_no_feed (n : nat) : 10%N ∉ Out.digits (S n) n.
Proof.
  induction n as [n IH] using lt_wf_ind. rewrite digits_unfold.
  destruct (Nat.ltb_spec n 10).
  - rewrite list_elem_of_singleton. lia.
  - rewrite elem_of_app, list_elem_of_singleton. intros [Hin|?]; [|lia].
    revert Hin. apply IH. pose proof (Nat.div_lt n 10). lia.
Qed.

Lemma str_no_feed (z : Z) : 0 ≤ z → 10%N ∉ Out.str z.
Proof.
  intros Hz. unfold Out.str. destruct (Z.ltb_spec z 0); [lia|].
  apply digits_no_feed.
Qed.

Lemma show_progress_length columns (i total : Z) :
  0 ≤ i ≤ total →
  length (show_progress columns i total) =
    (columns `max` (18 + 2 * length (Out.str total)))%nat.
Proof.
  intros Hi. pose proof (str_length_mono i total Hi) as Hlen.
  unfold show_progress.
  rewrite ljust_length. simpl. rewrite !length_app, rjust_length. simpl.
  rewrite !length_app. simpl. lia.
Qed.

Lemma show_progress_no_feed columns (i total : Z) :
  0 ≤ i ≤ total → 10%N ∉ show_progress columns i total.
Proof.
  intros Hi. unfold show_progress, Out.ljust, Out.rjust.
  rewrite !elem_of_app, !elem_of_cons, !elem_of_replicate.
  pose proof (str_no_feed i ltac:(lia)). pose proof (str_no_feed total ltac:(lia)).
  vm_compute Out.codes. rewrite ?elem_of_cons, ?elem_of_nil.
  intuition lia.
Qed.

(** X15: the progress lines of one scan all have the same length.  For
    [0 <= i <= total] the line starts with a carriage return, holds no line
    feed, and is as long as the terminal is wide, or 18 characters plus twice
    the digits of [total] if that is more; so each line covers the one
    before it. *)
Theorem progress_lines_have_one_length columns (i total : Z) :
  0 ≤ i ≤ total →
  length (show_progress columns i total) =
    (columns `max` (18 + 2 * length (Out.str total)))%nat ∧
  head (show_progress columns i total) = Some 13%N ∧
  10%N ∉ show_progress columns i total.
Proof.
  intros Hi. split_and!.
  - by apply show_progress_length.
  - done.
  - by apply show_progress_no_feed.
Qed.

Lemma progress_lines_have_one_length_witness :
  length (show_progress 40 7 120) = 40%nat ∧
  length (show_progress 20 7 120) = 24%nat ∧
  length (show_progress 20 120 120) = 24%nat.
Proof.
  split_and!.
  - destruct (progress_lines_have_one_length 40 7 120) as [-> _]; [lia|].
    vm_compute. reflexivity.
  - destruct (progress_lines_have_one_length 20 7 120) as [-> _]; [lia|].
    vm_compute. reflexivity.
  - destruct (progress_lines_have_one_length 20 120 120) as [-> _]; [lia|].
    vm_compute. reflexivity.
Defined.

Lemma scan_file_Raise_unreadable w st f e :
  scan_file w st f = Raise e → readable w f = false.
Proof.
  rewrite scan_file_bumps. unfold readable.
  by destruct (scan_file w empty_counters f).
Qed.

Lemma scan_shown_result w columns total i st files :
  (scan_shown w columns total i st files).2 = scan w st files.
Proof.
  revert i st. induction files as [|f files IH]; intros i st; simpl; [done|].
  destruct (scan_file w st f) as [st'|e]; simpl; [|done].
  specialize (IH (i + 1) st').
  by destruct (scan_shown w columns total (i + 1) st' files).
Qed.

Lemma scan_shown_lines w columns total i st files :
  (∀ j line, (scan_shown w columns total i st files).1 !! j = Some line →
     line = show_progress columns (i + Z.of_nat j) total ∧
     (j < length files)%nat ∧
     ∀ k f, (k < j)%nat → files !! k = Some f → readable w f = true) ∧
  ((∃ st', scan w st files = Ok st') →
     length (scan_shown w columns total i st files).1 = length files) ∧
  (∀ e, scan w st files = Raise e →
     ∃ n f, length (scan_shown w columns total i st files).1 = S n ∧
            files !! n = Some f ∧ readable w f = false).
Proof.
  revert i st. induction files as [|f files IH]; intros i st; simpl.
  - split_and!; [done|done|]. by intros e.
  - destruct (scan_file w st f) as [st'|e0] eqn:Hf; simpl.
    + destruct (IH (i + 1) st') as (IHline & IHok & IHraise).
      destruct (scan_shown w columns total (i + 1) st' files) as [lines r].
      simpl in *. split_and!.
      * intros [|j] line Hj; simpl in Hj.
        -- injection Hj as <-. split_and!; [f_equal; lia|lia|]. intros k g Hk. lia.
        -- destruct (IHline j line Hj) as (-> & Hlt & Hbefore).
           split_and!; [f_equal; lia|lia|].
           intros [|k] g Hk Hg; simpl in Hg.
           ++ injection Hg as <-. by eapply scan_file_Ok_readable.
           ++ apply (Hbefore k g); [lia|done].
      * intros Hok. by rewrite IHok.
      * intros e He. destruct (IHraise e He) as (n & g & Hn & Hg & Hr).
        exists (S n), g. by rewrite Hn.
    + split_and!.
      * intros [|j] line Hj; simpl in Hj; [|done]. injection Hj as <-.
        split_and!; [f_equal; lia|lia|]. intros k g Hk. lia.
      * by intros [st' ?].
      * intros e [= <-]. exists 0%nat, f. split_and!; [done..|].
        by eapply scan_file_Raise_unreadable.
Qed.

(** X16: the progress lines follow the scan.  The loop returns what the
    scan without output returns; line number [j] (from 0) is the progress
    line for index [i + j], and it is written only when every earlier file
    was read; a completed scan wrote one line per file, and a scan that
    raised wrote its last line for the file on which the loop body raises. *)
Theorem progress_follows_the_scan w columns total i st files :
  (scan_shown w columns total i st files).2 = scan w st files ∧
  (∀ j line, (scan_shown w columns total i st files).1 !! j = Some line →
     line = show_progress columns (i + Z.of_nat j) total ∧
     (j < length files)%nat ∧
     ∀ k f, (k < j)%nat → files !! k = Some f → readable w f = true) ∧
  ((∃ st', scan w st files = Ok st') →
     length (scan_shown w columns total i st files).1 = length files) ∧
  (∀ e, scan w st files = Raise e →
     ∃ n f, length (scan_shown w columns total i st files).1 = S n ∧
            files !! n = Some f ∧ readable w f = false).
Proof.
  split; [apply scan_shown_result|apply scan_shown_lines].
Qed.

Lemma done_not_progress columns (i total : Z) :
  0 ≤ i ≤ total → show_progress columns i total ≠ done_message.
Proof.
  intros Hi Heq. apply (show_progress_no_feed columns i total Hi).
  rewrite Heq. unfold done_message. rewrite !elem_of_app. do 8 right.
  apply list_elem_of_here.
Qed.

Lemma done_not_clear columns : clear_line columns ≠ done_message.
Proof.
  intros Heq. assert (10%N ∈ clear_line columns) as Hin.
  { rewrite Heq. unfold done_message. rewrite !elem_of_app. do 8 right.
    apply list_elem_of_here. }
  unfold clear_line in Hin.
  rewrite !elem_of_app, elem_of_replicate, !list_elem_of_singleton in Hin.
  intuition lia.
Qed.

Lemma done_not_in_lines w columns st files :
  done_message ∉
    (scan_shown w columns (Z.of_nat (length files)) 1 st files).1.
Proof.
  intros [j Hj]%list_elem_of_lookup.
  destruct (scan_shown_lines w columns (Z.of_nat (length files)) 1 st files)
    as (Hline & _).
  destruct (Hline j _ Hj) as (Heq & Hlt & _).
  symmetry in Heq. revert Heq. apply done_not_progress. lia.
Qed.

(** X17: what reaches the standard output.  Nothing is written when the
    folder is not a directory or holds no image; the closing [Done!] message
    is written exactly when the run ends with exit status 0, and it is then
    the last write. *)
Theorem done_is_written_iff w columns folder fs :
  (is_dir w folder = false ∨ images w folder = [] →
   main_shown w columns folder = []) ∧
  (done_message ∈ main_shown w columns folder ↔
   exit_status (main w folder fs).2 = 0) ∧
  (exit_status (main w folder fs).2 = 0 →
   last (main_shown w columns folder) = Some done_message).
Proof.
  unfold main_shown.
  destruct (is_dir w folder) eqn:Hd; cbn [negb].
  2:{ rewrite main_not_a_folder by done. cbn.
      split_and!; [done| |done]. split; [by intros ?%elem_of_nil|done]. }
  destruct (images w folder) as [|f files] eqn:Himg.
  { rewrite main_no_images by done. cbn.
    split_and!; [done| |done]. split; [by intros ?%elem_of_nil|done]. }
  rewrite <-Himg.
  assert (images w folder ≠ []) as Hne by (by rewrite Himg).
  pose proof (scan_shown_result w columns (Z.of_nat (length (images w folder))) 1
                empty_counters (images w folder)) as Hres.
  pose proof (done_not_in_lines w columns empty_counters (images w folder)) as Hnot.
  destruct (scan_shown w columns (Z.of_nat (length (images w folder))) 1
              empty_counters (images w folder)) as [lines r].
  cbn [fst snd] in Hres, Hnot.
  split; [intros [?|?]; congruence|].
  destruct r as [st|e].
  - destruct (decide (hist st = ∅)) as [Hempty|Hfull].
    + rewrite (main_no_data w folder fs st) by done.
      rewrite bool_decide_eq_true_2 by done. cbn.
      split; [|done]. split; [|done].
      rewrite elem_of_app, list_elem_of_singleton.
      intros [?|Hc]; [done|]. symmetry in Hc. by apply done_not_clear in Hc.
    + rewrite (main_reports w folder fs st) by done.
      rewrite bool_decide_eq_false_2 by done. cbn [fst snd exit_status].
      split.
      * split; [done|]. intros _. rewrite !elem_of_app. right. right.
        apply list_elem_of_here.
      * intros _. rewrite !app_assoc. apply last_snoc.
  - rewrite (main_scan_raises w folder fs e) by done. cbn.
    split; [|done]. split; [done|done].
Qed.

(** * Further properties: parsing failures, consistency of the two reports,
    and the ways a run can end *)

(** X7: [to_float] raises exactly when the text starts with a run of digits
    and dots that holds two dots or more, or no digit at all; what it raises
    is always a [ValueError]; on every other text, and on [None], it returns
    a number or [None]. *)
Theorem to_float_raises_exactly s :
  (to_float s = Raise ValueError ↔
   num_run (default EmptyString s) ≠ EmptyString ∧
   ((2 ≤ count_chars is_dot (num_run (default EmptyString s)))%nat ∨
    count_chars is_digit (num_run (default EmptyString s)) = 0%nat)) ∧
  (∀ e, to_float s = Raise e → e = ValueError).
Proof.
  split; [|intros e; apply to_float_exn].
  rewrite <-to_float_raises_iff. split; [eauto|].
  intros [e He]. by rewrite He, (to_float_exn s e He).
Qed.

Lemma camera_key_histogram_key w f cam n k :
  camera_key w f = Some (cam, n, k) → histogram_key w f = Some k.
Proof.
  unfold camera_key, histogram_key, focal_35.
  destruct (exif_vals w f) as [meta|]; [simpl|done].
  destruct (to_float (get meta "FL")) as [[x|]|]; [simpl|done..].
  destruct (ff_equiv meta (Some x)) as [[ff|]|]; [|done..].
  destruct (Float.truthy x); [simpl|done].
  destruct (Float.truthy ff); [|done].
  destruct (Float.round x); [|done].
  destruct (Float.round ff); [|done]. by intros [= _ _ ->].
Qed.

(** X18: the two reports agree.  After a completed scan every triple of the
    per-camera histogram has its 35 mm equivalent among the keys of the
    overall histogram, and its count is at most the count of that key. *)
Theorem camera_rows_are_covered w files st cam n k c :
  scan w empty_counters files = Ok st →
  camfx st !! (cam, n, k) = Some c →
  ∃ m, hist st !! k = Some m ∧ (1 ≤ c ≤ m)%nat.
Proof.
  intros Hs Hc.
  destruct (scan_counts _ _ _ _ Hs) as [Hh Hcam].
  destruct (scan_positive _ _ _ _ Hs) as [Hph Hpc]; [apply positive_empty..|].
  specialize (Hh k). specialize (Hcam (cam, n, k)).
  apply Hpc in Hc as Hpos. simpl in Hpos.
  unfold count, empty_counters in Hh, Hcam. rewrite Hc in Hcam.
  cbn [hist camfx] in Hh, Hcam.
  rewrite lookup_empty in Hh. rewrite lookup_empty in Hcam. simpl in Hh, Hcam.
  assert (length (filter (λ f, camera_key w f = Some (cam, n, k)) files)
          ≤ length (filter (λ f, histogram_key w f = Some k) files))%nat as Hle.
  { clear. induction files as [|f files IH]; [done|].
    rewrite !filter_cons. destruct (decide (camera_key w f = Some (cam, n, k))) as [Hk|Hk].
    - rewrite decide_True by (by eapply camera_key_histogram_key). simpl. lia.
    - case_decide; simpl; lia. }
  destruct (hist st !! k) as [m|]; simpl in Hh.
  - exists m. split; [done|lia].
  - lia.
Qed.

Lemma camera_rows_are_covered_witness :
  ∃ st m, scan demo_world empty_counters demo_files = Ok st ∧
          hist st !! 34 = Some m ∧ (1 ≤ 1 ≤ m)%nat.
Proof.
  destruct (scan demo_world empty_counters demo_files) as [st|e] eqn:Hs;
    [|vm_compute in Hs; discriminate].
  destruct (camera_rows_are_covered demo_world demo_files st "XT5" 23 34 1 Hs)
    as (m & Hm & Hle).
  - vm_compute in Hs. injection Hs as <-. vm_compute. reflexivity.
  - exists st, m. done.
Defined.

(** X19: the first failure ends the run.  When the folder is a directory
    and the loop raises, the run ends with that exception: exit status 1 and
    the files as they were.  The exception is the one the loop body raises on
    the first image on which it raises: every image listed before that one
    went through, and none listed after it is read. *)
Theorem first_failure_ends_the_run w folder fs e :
  is_dir w folder = true →
  scan w empty_counters (images w folder) = Raise e →
  main w folder fs = (fs, Raise e) ∧
  exit_status (main w folder fs).2 = 1 ∧
  ∃ pre f post st,
    images w folder = (pre ++ f :: post)%list ∧
    Forall (λ g, readable w g = true) pre ∧
    scan w empty_counters pre = Ok st ∧
    scan_file w st f = Raise e ∧
    ∀ others, scan w empty_counters (pre ++ f :: others)%list = Raise e.
Proof.
  intros Hd Hs.
  assert (images w folder ≠ []) as Hne.
  { intros Hnil. by rewrite Hnil in Hs. }
  rewrite (main_scan_raises w folder fs e Hd Hne Hs).
  split_and!; [done..|].
  clear Hne. revert Hs. generalize empty_counters.
  induction (images w folder) as [|f files IH]; intros st0; simpl; [done|].
  destruct (scan_file w st0 f) as [st1|e0] eqn:Hf; simpl.
  - intros Hs. destruct (IH st1 Hs) as (pre & g & post & st & -> & Hpre & Hok & Hg & Hall).
    exists (f :: pre), g, post, st. split_and!; [done| |by simpl; rewrite Hf|done|].
    + constructor; [by eapply scan_file_Ok_readable|done].
    + intros others. simpl. rewrite Hf. simpl. apply Hall.
  - intros [= ->]. exists [], f, files, st0.
    split_and!; [done|constructor|done|done|].
    intros others. simpl. by rewrite Hf.
Qed.

Lemma first_failure_ends_the_run_witness :
  main dotted_world "in" ∅ = (∅, Raise ValueError) ∧
  exit_status (main dotted_world "in" ∅).2 = 1.
Proof.
  destruct (first_failure_ends_the_run dotted_world "in" ∅ ValueError)
    as (Hm & Hstatus & _); [vm_compute; reflexivity..|done].
Defined.

(** X20: the normalizer and a manufacturer that is not a text.  When
    neither 35 mm tag is usable and the native focal length is known, a
    record that has the manufacturer key with the value [None] makes
    [ff_equiv] raise [AttributeError], and this is the only way it raises
    one; a record without the manufacturer key is read as an empty
    manufacturer and gives the native value back. *)
Theorem ff_equiv_attribute_error meta native :
  (ff_equiv meta native = Raise AttributeError ↔
   first_usable meta ["FL35Comp"; "FL35"] = Ok None ∧
   is_Some native ∧ meta !! "Make" = Some None) ∧
  (first_usable meta ["FL35Comp"; "FL35"] = Ok None →
   meta !! "Make" = None →
   ff_equiv meta native = Ok native).
Proof.
  unfold ff_equiv.
  destruct (first_usable meta ["FL35Comp"; "FL35"]) as [[mm|]|e] eqn:Hfu; simpl.
  - split; [|done]. split; [done|by intros [? _]].
  - unfold crop_rule, get_or_empty. split.
    + destruct native as [x|]; [|split; [done|by intros (_ & [? ?] & _)]].
      destruct (meta !! "Make") as [[make|]|]; simpl.
      * destruct (Str.contains "FUJIFILM" (Str.upper make));
          (split; [done|by intros (_ & _ & ?)]).
      * split; [by eauto|done].
      * split; [done|by intros (_ & _ & ?)].
    + intros _ Hm. rewrite Hm. simpl. by destruct native.
  - split; [|done]. split; [|by intros [? _]].
    intros [= ->]. by apply first_usable_exn in Hfu.
Qed.

Lemma ff_equiv_attribute_error_witness :
  ff_equiv (<["Model" := Some "EOS 5D"]> ∅) (Some 50%float) = Ok (Some 50%float).
Proof.
  destruct (ff_equiv_attribute_error (<["Model" := Some "EOS 5D"]> ∅) (Some 50%float))
    as [_ Hmissing].
  apply Hmissing; vm_compute; reflexivity.
Defined.
